(** * fluke_985: the synchronisation core of the Fluke 985 IOC

    A shallow embedding of [fluke_985/comm.py] (status page
    interpretation), [fluke_985/data.py] (header metadata, sample period
    and alarm summary), the update cycle of [fluke_985/ioc.py]
    ([Fluke985Base.update_hook] and the methods it calls) and the
    simulated device of [fluke_985/sim_server.py].

    Modelling conventions.
    - Time is an integer number of microseconds since the epoch: the
      resolution of Python's [datetime], through which [_find_new_rows]
      computes its cutoff.  [1e-6] seconds is [1], [0.1] seconds is
      [100000].
    - A cell of the pandas table is a [value]: an int64 cell, a float64
      cell (a rational, or NaN) or a text cell.
    - The table returned by [load_fluke_data_file] is a list of
      (timestamp, row) pairs in file order; a row ([pandas.Series]) is
      an association list from column name to cell, in column order.
    - The IOC state holds the process variables the cycle reads or
      writes; every PV write, network request or remote command is an
      [event], appended to a trace when it is attempted.  Whether the
      attempt raises is decided by an oracle [write_ok] (caproto's
      [write] and aiohttp's requests are outside this repository). *)

From Stdlib Require Import ZArith QArith Lia Ascii String Sorted Permutation.
From stdpp Require Import base list gmap strings.
Import ListNotations.

Open Scope Z_scope.

(** ** Table cells *)

Inductive value :=
| VInt (z : Z)
| VFloat (q : Q)
| VNaN
| VStr (s : string).

(** [isinstance(value, float)]: numpy float64 cells are Python floats. *)
Definition is_float (v : value) : bool :=
  match v with VFloat _ | VNaN => true | _ => false end.

(** [np.isnan]: [None] when numpy raises [TypeError] (text input). *)
Definition np_isnan (v : value) : option bool :=
  match v with
  | VNaN => Some true
  | VInt _ | VFloat _ => Some false
  | VStr _ => None
  end.

(** Python truthiness, as used by [if alarm_summary:]. *)
Definition truthy (v : value) : bool :=
  match v with
  | VInt z => negb (z =? 0)
  | VFloat q => negb (Qeq_bool q 0)
  | VNaN => true
  | VStr s => negb (String.eqb s "")
  end.

(** Python's [a > b] on cells: numbers compare numerically, NaN compares
    false, texts compare lexicographically, and a text against a number
    raises [TypeError] ([None]). *)
Definition num_of (v : value) : option Q :=
  match v with
  | VInt z => Some (inject_Z z)
  | VFloat q => Some q
  | _ => None
  end.

Definition py_gt (a b : value) : option bool :=
  match a, b with
  | VStr x, VStr y => Some (match String.compare x y with Gt => true | _ => false end)
  | VStr _, _ | _, VStr _ => None
  | VNaN, _ | _, VNaN => Some false
  | _, _ =>
      match num_of a, num_of b with
      | Some x, Some y => Some (negb (Qle_bool x y))
      | _, _ => None
      end
  end.

(** A table row ([pandas.Series]) and [row[key]] ([None]: [KeyError]). *)
Definition row := list (string * value).

Fixpoint row_get (r : row) (k : string) : option value :=
  match r with
  | [] => None
  | (k', v) :: r' => if String.eqb k k' then Some v else row_get r' k
  end.

(** ** [data.summarize_alarms] *)

Definition ALARM_KEYS : list string :=
  ["Cal Alarm"; "Flow Alarm"; "Over Conc. Alarm"; "System Alarm";
   "Count Alarm"; "Battery Alarm"; "Laser Alarm"].

(** Python's [max] over an iterable: keep the first item and replace it
    by each later item that compares greater. *)
Fixpoint py_max_from (cur : value) (items : list value) : option value :=
  match items with
  | [] => Some cur
  | x :: xs =>
      match py_gt x cur with
      | None => None
      | Some true => py_max_from x xs
      | Some false => py_max_from cur xs
      end
  end.

(** [max(row[key] for key in ALARM_KEYS)]: the generator raises
    [KeyError] at the first missing key. *)
Fixpoint get_all (r : row) (ks : list string) : option (list value) :=
  match ks with
  | [] => Some []
  | k :: ks' =>
      match row_get r k with
      | None => None
      | Some v => option_map (cons v) (get_all r ks')
      end
  end.

Definition summarize_alarms (r : row) : option value :=
  match get_all r ALARM_KEYS with
  | Some (v :: vs) => py_max_from v vs
  | _ => None
  end.

(** ** [comm.get_state_information]

    The status page is a Python [str]; it is modelled as a list of
    characters. *)

Definition text := list ascii.

Definition txt (s : string) : text := list_ascii_of_string s.

Fixpoint prefixb (p t : text) : bool :=
  match p, t with
  | [], _ => true
  | a :: p', b :: t' => Ascii.eqb a b && prefixb p' t'
  | _ :: _, [] => false
  end.

(** Python's [needle in haystack] on strings. *)
Fixpoint contains (n t : text) : bool :=
  prefixb n t || match t with [] => false | _ :: t' => contains n t' end.

(** [RE_NUM_RECORDS], the pattern [DATA\.TSV.*?left>(G)<.td>] whose
    group G is [\d\d*].
    [\d] is a decimal digit, [.] any character but a newline. *)
Definition newline : ascii := Ascii.ascii_of_nat 10.

Definition is_digit (c : ascii) : bool :=
  andb (Nat.leb 48 (Ascii.nat_of_ascii c)) (Nat.leb (Ascii.nat_of_ascii c) 57).

Definition digit_val (c : ascii) : Z := Z.of_nat (Ascii.nat_of_ascii c) - 48.

(** The value of a string of decimal digits. *)
Fixpoint digits_value_acc (acc : Z) (ds : text) : Z :=
  match ds with
  | [] => acc
  | d :: ds' => digits_value_acc (10 * acc + digit_val d) ds'
  end.

(** [sys.get_int_max_str_digits()]: Python's default limit (3.11 and
    later, and the security releases of 3.7 to 3.10) on the number of
    digits [int] converts from a string; the package does not change it. *)
Definition int_max_str_digits : nat := 4300.

(** [int(records)] on a string of decimal digits: past
    [int_max_str_digits] digits it raises [ValueError] ([None]). *)
Definition py_int_digits (ds : text) : option Z :=
  if (length ds <=? int_max_str_digits)%nat then Some (digits_value_acc 0 ds) else None.

(** The greedy group [\d\d*]: the longest run of digits. *)
Fixpoint span_digits (t : text) : text * text :=
  match t with
  | c :: t' =>
      if is_digit c then let (ds, rest) := span_digits t' in (c :: ds, rest)
      else ([], t)
  | [] => ([], [])
  end.

(** [left>(G)<.td>] at the start of [t]; the group's text on success.
    Backtracking into the group cannot help: a shorter run is followed by a
    digit, not by [<]. *)
Definition match_tail (t : text) : option text :=
  if prefixb (txt "left>") t then
    let (ds, rest) := span_digits (skipn 5 t) in
    match ds, rest with
    | _ :: _, lt :: c :: rest' =>
        if Ascii.eqb lt "<"%char && negb (Ascii.eqb c newline)
           && prefixb (txt "td>") rest'
        then Some ds else None
    | _, _ => None
    end
  else None.

(** The lazy [.*?]: try the tail at the current position first, then
    consume one non-newline character and retry. *)
Fixpoint match_lazy (t : text) : option text :=
  match match_tail t with
  | Some ds => Some ds
  | None =>
      match t with
      | [] => None
      | c :: t' => if Ascii.eqb c newline then None else match_lazy t'
      end
  end.

Definition match_at (t : text) : option text :=
  if prefixb (txt "DATA.TSV") t then match_lazy (skipn 8 t) else None.

(** [RE_NUM_RECORDS.search(html)]: leftmost start position first; the
    match's group 1. *)
Fixpoint re_search (t : text) : option text :=
  match match_at t with
  | Some ds => Some ds
  | None => match t with [] => None | _ :: t' => re_search t' end
  end.

Record state_info := mkStateInfo {
  si_state : string;
  si_records : option Z
}.

(** The returned dictionary; [None] is the [ValueError] of
    [int(records)]. *)
Definition get_state_information (html : text) : option state_info :=
  let state :=
    if contains (txt "New data available.") html then "new_data"
    else if contains (txt "Building Data file") html then "rebuilding"
    else if contains (txt "Click link above to download") html then "download"
    else "unknown" in
  match re_search html with
  | Some records =>
      match py_int_digits records with
      | Some n => Some (mkStateInfo state (Some n))
      | None => None
      end
  | None => Some (mkStateInfo state None)
  end.

(** ** The IOC: process variables, events and the cycle monad *)

(** caproto's [(AlarmStatus, AlarmSeverity)] pair of a row: [READ] goes
    with [MAJOR_ALARM], [NO_ALARM] with [NO_ALARM]. *)
Inductive severity := NO_ALARM | MAJOR_ALARM.

(** The declared type of a pvproperty, [type(prop.value)]. *)
Inductive ptype := TInt | TFloat | TStr.

Inductive event :=
| EWriteAvailableRecords (n : Z)
| EWriteServerState (st : string)
| ERequestRebuild
| EWriteMeta (ch : string) (v : string) (ts : Z)
| ETranslate (ts : Z)  (** [_post_new_row] entered for the row at [ts] *)
| EWriteOverallAlarm (v : value) (ts : Z)
| EWriteValue (ch : string) (v : value) (ts : Z) (sev : severity)
| EWriteQuality (ch : string) (ts : Z)
    (** [write_metadata(status=UDF, severity=NO_ALARM)] *)
| EWriteUnits (u : value)
| EWriteEGU (v : value)
| EWriteSamplePeriod (n : Z) (ts : Z)
| EWriteLastTimestamp (ts : Z)
| EWriteSyncRecords (n : Z)
| ECommAlarm.

Record ioc := mkIoc {
  server_state : string;
  available_records : Z;
  sync_records : Z;
  last_timestamp : Z;
  overall_alarm : value;
  meta_pv : gmap string string;
  trace : list event
}.

(** The state a PV write leaves behind once it has gone through. *)
Definition apply_event (e : event) (s : ioc) : ioc :=
  match e with
  | EWriteAvailableRecords n =>
      mkIoc (server_state s) n (sync_records s) (last_timestamp s)
        (overall_alarm s) (meta_pv s) (trace s)
  | EWriteServerState st =>
      mkIoc st (available_records s) (sync_records s) (last_timestamp s)
        (overall_alarm s) (meta_pv s) (trace s)
  | EWriteMeta ch v _ =>
      mkIoc (server_state s) (available_records s) (sync_records s)
        (last_timestamp s) (overall_alarm s) (<[ch := v]> (meta_pv s)) (trace s)
  | EWriteOverallAlarm v _ =>
      mkIoc (server_state s) (available_records s) (sync_records s)
        (last_timestamp s) v (meta_pv s) (trace s)
  | EWriteLastTimestamp ts =>
      mkIoc (server_state s) (available_records s) (sync_records s) ts
        (overall_alarm s) (meta_pv s) (trace s)
  | EWriteSyncRecords n =>
      mkIoc (server_state s) (available_records s) n (last_timestamp s)
        (overall_alarm s) (meta_pv s) (trace s)
  | _ => s
  end.

Definition log_event (e : event) (s : ioc) : ioc :=
  mkIoc (server_state s) (available_records s) (sync_records s)
    (last_timestamp s) (overall_alarm s) (meta_pv s) (trace s ++ [e]).

Inductive outcome (A : Type) := Ret (a : A) | Raise.
Arguments Ret {A} a.
Arguments Raise {A}.

(** A coroutine of the IOC: state passing with Python exceptions. *)
Definition M (A : Type) : Type := ioc -> ioc * outcome A.

Definition retM {A} (a : A) : M A := fun s => (s, Ret a).

Definition bindM {A B} (f : A -> M B) (m : M A) : M B :=
  fun s => match m s with
           | (s', Ret a) => f a s'
           | (s', Raise) => (s', Raise)
           end.

Global Instance M_ret : MRet M := @retM.
Global Instance M_bind : MBind M := @bindM.

Definition raise {A} : M A := fun s => (s, Raise).

Definition getM : M ioc := fun s => (s, Ret s).

(** [try: m except Exception: h]: effects of [m] up to the raise stay. *)
Definition catchM {A} (m : M A) (h : M A) : M A :=
  fun s => match m s with
           | (s', Ret a) => (s', Ret a)
           | (s', Raise) => h s'
           end.

Definition lift_opt {A} (o : option A) : M A :=
  match o with Some a => retM a | None => raise end.

Definition log (e : event) : M unit := fun s => (log_event e s, Ret tt).

(** The static tables of [Fluke985Base]. *)
Definition metadata_to_property : list (string * (string * nat)) :=
  [("Model Number", ("model_number", 40%nat));
   ("Serial Number", ("serial_number", 40%nat));
   ("Firmware Version", ("firmware_version", 40%nat));
   ("Hardware Version", ("hardware_version", 40%nat));
   ("Bootloader", ("bootloader_version", 40%nat))].

Definition data_key_to_property : list (string * (string * ptype)) :=
  [("Sample Volume", ("sample_volume", TFloat));
   ("Count Mode", ("count_mode", TStr));
   ("Concentration Mode", ("concentration_mode", TStr));
   ("0.3um", ("norm_0_3um", TFloat));
   ("0.5um", ("norm_0_5um", TFloat));
   ("1.0um", ("norm_1_0um", TFloat));
   ("2.0um", ("norm_2_0um", TFloat));
   ("5.0um", ("norm_5_0um", TFloat));
   ("10.0um", ("norm_10_0um", TFloat));
   ("Sample Mode", ("sample_mode", TStr));
   ("Location Name", ("location_name", TStr));
   ("Sample Number", ("sample_number", TInt));
   ("Cal. Value", ("calibrated_value", TFloat));
   ("Laser Current", ("laser_current", TFloat));
   ("0.3um (Cum. Counts)", ("raw_0_3um", TFloat));
   ("0.5um (Cum. Counts)", ("raw_0_5um", TFloat));
   ("1.0um (Cum. Counts)", ("raw_1_0um", TFloat));
   ("2.0um (Cum. Counts)", ("raw_2_0um", TFloat));
   ("5.0um (Cum. Counts)", ("raw_5_0um", TFloat));
   ("10.0um (Cum. Counts)", ("raw_10_0um", TFloat));
   ("Cal Alarm", ("cal_alarm", TInt));
   ("Flow Alarm", ("flow_alarm", TInt));
   ("Over Conc. Alarm", ("over_conc_alarm", TInt));
   ("System Alarm", ("system_alarm", TInt));
   ("Count Alarm", ("count_alarm", TInt));
   ("Battery Alarm", ("battery_alarm", TInt));
   ("Laser Alarm", ("laser_alarm", TInt))].

Fixpoint assoc {B} (k : string) (l : list (string * B)) : option B :=
  match l with
  | [] => None
  | (k', b) :: l' => if String.eqb k k' then Some b else assoc k l'
  end.

(** A table: (timestamp, row) pairs in file order. *)
Definition table := list (Z * row).

(** ** [Fluke985Base._find_new_rows] *)

(** [df.tail(1)]. *)
Definition tail1 (df : table) : table := skipn (length df - 1) df.

(** [df.loc[cutoff:]] on the time-ordered index of the export: label
    slicing starts at the first row whose timestamp is not below the
    cutoff. *)
Fixpoint loc_from (cutoff : Z) (df : table) : table :=
  match df with
  | [] => []
  | (ts, r) :: df' => if ts <? cutoff then loc_from cutoff df' else df
  end.

(** [last] is [self.last_timestamp.value], [sync] is
    [self.sync_records.value]; [1] is [1e-6] s and [100000] is the
    [timedelta(seconds=0.1)] margin. *)
Definition find_new_rows (last sync : Z) (df : table) : table :=
  if last <? 1 then tail1 df
  else
    let items := loc_from (last + 100000) df in
    if (length items =? 0)%nat && (sync =? 0) then tail1 df else items.

(** [sorted(df.iterrows())] sorts (Timestamp, Series) pairs: equal
    timestamps fall through to comparing two Series, whose truth value
    raises [ValueError] ([None]). *)
Fixpoint insert_row (x : Z * row) (l : table) : option table :=
  match l with
  | [] => Some [x]
  | y :: l' =>
      if fst x <? fst y then Some (x :: l)
      else if fst x =? fst y then None
      else option_map (cons y) (insert_row x l')
  end.

Fixpoint sorted_rows (l : table) : option table :=
  match l with
  | [] => Some []
  | x :: l' =>
      match sorted_rows l' with
      | None => None
      | Some s => insert_row x s
      end
  end.

(** The order of the export's index: non-decreasing timestamps, and the
    strictly increasing case. *)
Fixpoint ts_sorted (df : table) : bool :=
  match df with
  | x :: ((y :: _) as df') => (fst x <=? fst y) && ts_sorted df'
  | _ => true
  end.

Fixpoint ts_strict (df : table) : bool :=
  match df with
  | x :: ((y :: _) as df') => (fst x <? fst y) && ts_strict df'
  | _ => true
  end.


(** ** [data.sample_period_to_seconds] *)

Fixpoint split_colon (t : text) : list text :=
  match t with
  | [] => [[]]
  | c :: t' =>
      if Ascii.eqb c ":"%char then [] :: split_colon t'
      else match split_colon t' with
           | p :: ps => (c :: p) :: ps
           | [] => [[c]]
           end
  end.

(** The whitespace [int] skips around a number: [str.isspace] for code
    points from 127 up, the C [isspace] set (tab to carriage return and
    the space) below. *)
Definition int_space (c : ascii) : bool :=
  let n := Ascii.nat_of_ascii c in
  ((9 <=? n)%nat && (n <=? 13)%nat) || (n =? 32)%nat || (n =? 133)%nat || (n =? 160)%nat.

Fixpoint int_lstrip (t : text) : text :=
  match t with
  | c :: t' => if int_space c then int_lstrip t' else t
  | [] => []
  end.

(** The digit loop of [PyLong_FromString]: decimal digits and single
    underscores.  The digits read, whether the last character read was
    an underscore, and the rest; [None] at a second underscore in a row. *)
Fixpoint scan_digits (prev_us : bool) (t : text) : option (text * bool * text) :=
  match t with
  | c :: t' =>
      if is_digit c then
        match scan_digits false t' with
        | Some (ds, u, rest) => Some (c :: ds, u, rest)
        | None => None
        end
      else if Ascii.eqb c "_"%char then
        if prev_us then None else scan_digits true t'
      else Some ([], prev_us, t)
  | [] => Some ([], prev_us, [])
  end.

(** [int(part)] on a string, base 10: leading whitespace, an optional
    sign, digits with single underscores between them, trailing
    whitespace.  Every failure is a [ValueError] ([None]): no digit, a
    leading, doubled or trailing underscore, more than
    [int_max_str_digits] digits, or anything else after the number. *)
Definition parse_int (t : text) : option Z :=
  let t1 := int_lstrip t in
  let '(sign, t2) :=
    match t1 with
    | c :: r =>
        if Ascii.eqb c "-"%char then (-1, r)
        else if Ascii.eqb c "+"%char then (1, r)
        else (1, t1)
    | [] => (1, t1)
    end in
  match t2 with
  | [] => None
  | c :: _ =>
      if Ascii.eqb c "_"%char then None
      else
        match scan_digits false t2 with
        | Some (ds, false, rest) =>
            if (int_max_str_digits <? length ds)%nat then None
            else match ds with
                 | [] => None
                 | _ :: _ =>
                     if forallb int_space rest then Some (sign * digits_value_acc 0 ds)
                     else None
                 end
        | _ => None
        end
  end.

(** [hours, minutes, seconds = sample_period.split(':')] then
    [3600 * int(hours) + 60 * int(minutes) + int(seconds)]; a non-text
    cell has no [split] ([AttributeError]). *)
Definition sample_period_to_seconds (v : value) : option Z :=
  match v with
  | VStr s =>
      match split_colon (txt s) with
      | [h; m; sec] =>
          match parse_int h, parse_int m, parse_int sec with
          | Some h', Some m', Some s' => Some (3600 * h' + 60 * m' + s')
          | _, _, _ => None
          end
      | _ => None
      end
  | _ => None
  end.

(** ** [data._get_metadata] *)

(** [str.isspace] on a character of code point below 256. *)
Definition is_space (c : ascii) : bool :=
  let n := Ascii.nat_of_ascii c in
  ((9 <=? n)%nat && (n <=? 13)%nat) || ((28 <=? n)%nat && (n <=? 32)%nat)
  || (n =? 133)%nat || (n =? 160)%nat.

Fixpoint lstrip (t : text) : text :=
  match t with
  | c :: t' => if is_space c then lstrip t' else t
  | [] => []
  end.

(** [str.strip()]. *)
Definition py_strip (t : text) : text := rev (lstrip (rev (lstrip t))).

(** [line.split(':', 1)] on a line that contains [':']. *)
Fixpoint split_once (t : text) : text * text :=
  match t with
  | [] => ([], [])
  | c :: t' =>
      if Ascii.eqb c ":"%char then ([], t')
      else let (k, v) := split_once t' in (c :: k, v)
  end.

(** The successive results of [fp.readline()] from the start of the
    file: each line keeps its ['\n']; after the last one [readline]
    returns [''], which is not listed. *)
Fixpoint readlines (t : text) : list text :=
  match t with
  | [] => []
  | c :: t' =>
      if Ascii.eqb c newline then [c] :: readlines t'
      else match readlines t' with
           | l :: ls => (c :: l) :: ls
           | [] => [[c]]
           end
  end.

(** The loop [for line_number in itertools.count(start=1)]; the end of
    the list is the [''] of [readline] at the end of the file, which
    has no [':']. *)
Fixpoint get_metadata_lines (lines : list text) (line_number : nat)
    (metadata : gmap string string) : nat * gmap string string :=
  match lines with
  | [] => (line_number, metadata)
  | l :: ls =>
      let line := py_strip l in
      if negb (contains [":"%char] line) then (line_number, metadata)
      else
        let (key, value) := split_once line in
        get_metadata_lines ls (S line_number)
          (<[string_of_list_ascii (py_strip key) := string_of_list_ascii (py_strip value)]> metadata)
  end.

(** [_get_metadata(fp)]: [(last_md_line, metadata)]. *)
Definition get_metadata (f : text) : nat * gmap string string :=
  get_metadata_lines (readlines f) 1 ∅.

(** Inputs of one [update_hook] tick: the status page text ([None]: the
    request failed or timed out), the downloaded and parsed export
    ([None]: download or parse failed or timed out), and [time.time()]. *)
Record tick_input := mkTick {
  ti_html : option text;
  ti_download : option (gmap string string * table);
  ti_now : Z
}.

(** ** The update cycle *)

Section Cycle.

(** Whether an attempted PV write or remote command raises (caproto's
    value checks, aiohttp errors); decided outside this repository. *)
Variable write_ok : event -> bool.

(** [type(prop.value)(value)]: Python's [int], [float] or [str]
    constructor; [None] when it raises. *)
Variable type_cast : ptype -> value -> option value.

Definition emit (e : event) : M unit :=
  fun s => let s1 := log_event e s in
           if write_ok e then (apply_event e s1, Ret tt) else (s1, Raise).

(** [_write_metadata_if_changed]. *)
Definition write_metadata_if_changed (ch : string) (max_length : nat)
    (v : string) (timestamp : Z) : M unit :=
  s ← getM;
  let v' := String.substring 0 max_length v in
  if String.eqb (default "" (meta_pv s !! ch)) v' then retM tt
  else emit (EWriteMeta ch v' timestamp).

(** [_update_metadata]: [metadata.get(key, 'unknown')] for each channel. *)
Fixpoint update_metadata_from (props : list (string * (string * nat)))
    (metadata : gmap string string) (timestamp : Z) : M unit :=
  match props with
  | [] => retM tt
  | (key, (ch, n)) :: props' =>
      write_metadata_if_changed ch n (default "unknown" (metadata !! key)) timestamp ;;
      update_metadata_from props' metadata timestamp
  end.

Definition update_metadata (metadata : gmap string string) (timestamp : Z) : M unit :=
  update_metadata_from metadata_to_property metadata timestamp.

(** One iteration of [for key, value in row.items()] on a mapped key:
    the quality-only write for a NaN float, otherwise the cast value
    written with the row's severity; any exception is logged. *)
Definition post_field (ch : string) (ty : ptype) (v : value) (ts : Z)
    (sev : severity) : M unit :=
  catchM
    (if is_float v && default false (np_isnan v) then emit (EWriteQuality ch ts)
     else match type_cast ty v with
          | Some v' => emit (EWriteValue ch v' ts sev)
          | None => raise
          end)
    (retM tt).

(** The binding of the loop variable [value] after the iteration. *)
Definition rebound_value (ty : ptype) (v : value) : value :=
  if is_float v && default false (np_isnan v) then v
  else default v (type_cast ty v).

(** The loop over [row.items()]; returns the final binding of [value]. *)
Fixpoint post_fields (r : row) (ts : Z) (sev : severity)
    (value_var : option value) : M (option value) :=
  match r with
  | [] => retM value_var
  | (k, v) :: r' =>
      match assoc k data_key_to_property with
      | None => post_fields r' ts sev (Some v)
      | Some (ch, ty) =>
          post_field ch ty v ts sev ;;
          post_fields r' ts sev (Some (rebound_value ty v))
      end
  end.

(** [_post_new_row]. *)
Definition post_new_row (ts : Z) (r : row) : M unit :=
  log (ETranslate ts) ;;
  alarm_summary ← catchM
    (summary ← lift_opt (summarize_alarms r);
     emit (EWriteOverallAlarm summary ts) ;;
     retM summary)
    (retM (VInt 1));
  let sev := if truthy alarm_summary then MAJOR_ALARM else NO_ALARM in
  value_var ← post_fields r ts sev None;
  (* try: units = row['Sample Units'] except KeyError: ... else: ... *)
  (match row_get r "Sample Units" with
   | None => retM tt
   | Some units =>
       match np_isnan units with
       | None => raise
       | Some true => retM tt
       | Some false =>
           emit (EWriteUnits units) ;;
           match value_var with
           | Some v => emit (EWriteEGU v)
           | None => raise
           end
       end
   end) ;;
  catchM
    (p ← lift_opt (row_get r "Sample Period");
     n ← lift_opt (sample_period_to_seconds p);
     emit (EWriteSamplePeriod n ts))
    (retM tt).

(** The loop of [_download_and_update] over the sorted new rows. *)
Fixpoint post_rows (rows : table) : M unit :=
  match rows with
  | [] => retM tt
  | (ts, r) :: rows' =>
      post_new_row ts r ;;
      emit (EWriteLastTimestamp ts) ;;
      post_rows rows'
  end.

(** [_download_and_update]. *)
Definition download_and_update (dl : option (gmap string string * table))
    (now : Z) : M unit :=
  '(metadata, df) ← lift_opt dl;
  update_metadata metadata now ;;
  s ← getM;
  rows ← lift_opt (sorted_rows (find_new_rows (last_timestamp s) (sync_records s) df));
  post_rows rows ;;
  emit (EWriteSyncRecords (Z.of_nat (length df))).

(** [new_records_available]. *)
Definition new_records_available (s : ioc) : bool :=
  available_records s >? sync_records s.

(** [_update_server_state]. *)
Definition update_server_state (html : option text) : M unit :=
  h ← lift_opt html;
  info ← lift_opt (get_state_information h);
  s ← getM;
  (match si_records info with
   | Some n => if n =? available_records s then retM tt
               else emit (EWriteAvailableRecords n)
   | None => retM tt
   end) ;;
  s ← getM;
  (if String.eqb (si_state info) (server_state s) then retM tt
   else emit (EWriteServerState (si_state info))) ;;
  s ← getM;
  if String.eqb (si_state info) "new_data" && new_records_available s
  then emit ERequestRebuild
  else retM tt.

(** [_should_download]. *)
Definition should_download (s : ioc) : bool :=
  String.eqb (server_state s) "download" && new_records_available s.

(** [update_hook]: one scan tick; any exception sets the COMM alarms. *)
Definition update_hook (inp : tick_input) : M unit :=
  catchM
    (update_server_state (ti_html inp) ;;
     s ← getM;
     if should_download s then download_and_update (ti_download inp) (ti_now inp)
     else retM tt)
    (emit ECommAlarm).

Definition tick (inp : tick_input) (s : ioc) : ioc := fst (update_hook inp s).

Fixpoint run_ticks (inps : list tick_input) (s : ioc) : ioc :=
  match inps with
  | [] => s
  | i :: is => run_ticks is (tick i s)
  end.

End Cycle.

(** ** [sim_server]: the simulated device *)

(** [GlobalState.state]: the four values it takes. *)
Inductive sim_state := st_new_data | st_rebuilding | st_download | st_request.

(** [GlobalState.STATE_TO_HTML]; a response is named by the file whose
    text it returns. *)
Definition STATE_TO_HTML (st : sim_state) : string :=
  match st with
  | st_new_data => "html/new_data.html"
  | st_rebuilding => "html/rebuilding.html"
  | st_download => "html/ready-to-download.html"
  | st_request => "html/rebuilding.html"
  end.

Definition SAMPLE_DATA_FILE : string := "sample_data.tsv".

(** [GlobalState.transition]. *)
Definition transition (st : sim_state) : sim_state :=
  match st with
  | st_request => st_rebuilding
  | st_rebuilding => st_download
  | st_download => st_new_data
  | st_new_data => st_new_data
  end.

(** The handlers: the response text and the state they leave. *)
Definition handle_data (st : sim_state) : string * sim_state :=
  (SAMPLE_DATA_FILE, st_new_data).

Definition handle_main (st : sim_state) : string * sim_state :=
  (STATE_TO_HTML st, transition st).

(** [post_data.get('BuildFile', None)]: the first value of the key. *)
Definition handle_rebuild (post_data : list (string * string)) (st : sim_state)
    : string * sim_state :=
  match assoc "BuildFile" post_data with
  | Some b =>
      if String.eqb b "Build"
      then (STATE_TO_HTML st_request, transition st_request)
      else (STATE_TO_HTML st, st)
  | None => (STATE_TO_HTML st, st)
  end.

Inductive http_method := GET | HEAD | POST | PUT.

(** The application's routes; [web.get] also serves [HEAD].  A request
    with no route gets aiohttp's 404 or 405 answer ([None]) without
    running a handler. *)
Definition sim_request (m : http_method) (path : string) (post_data : list (string * string))
    (st : sim_state) : option (string * sim_state) :=
  match m with
  | GET | HEAD =>
      if String.eqb path "/DATA.TSV" then Some (handle_data st)
      else if String.eqb path "/" then Some (handle_main st)
      else None
  | POST => if String.eqb path "/" then Some (handle_rebuild post_data st) else None
  | PUT => None
  end.

(** [comm.REBUILD_POST_DATA], and the request [comm.request_rebuild]
    sends: [session.put(REBUILD_URL, data=REBUILD_POST_DATA)]. *)
Definition REBUILD_POST_DATA : list (string * string) := [("BuildFile", "Build")].

Definition request_rebuild_method : http_method := PUT.

(** The requests the IOC sends to the device: [comm.check_state]
    ([GET] of [CHECK_STATE_URL]), [comm.get_data_file] ([GET] of
    [DATA_FILE_URL]) and [comm.request_rebuild] (of [REBUILD_URL]). *)
Inductive ioc_request := RCheckState | RGetDataFile | RRequestRebuild.

Definition ioc_http (r : ioc_request) : http_method * string * list (string * string) :=
  match r with
  | RCheckState => (GET, "/", [])
  | RGetDataFile => (GET, "/DATA.TSV", [])
  | RRequestRebuild => (request_rebuild_method, "/", REBUILD_POST_DATA)
  end.

(** The simulator serving a sequence of the IOC's requests, one after
    the other: the text of each response ([None] for aiohttp's 404 or
    405 answer) and the final state. *)
Fixpoint sim_serve (rs : list ioc_request) (st : sim_state) : list (option string) * sim_state :=
  match rs with
  | [] => ([], st)
  | r :: rs' =>
      let '(m, path, post_data) := ioc_http r in
      match sim_request m path post_data st with
      | Some (body, st') => let '(bs, st'') := sim_serve rs' st' in (Some body :: bs, st'')
      | None => let '(bs, st'') := sim_serve rs' st in (None :: bs, st'')
      end
  end.

(** * Specification helpers over the model

    Predicates and event summaries that the statements below use. *)

Definition ts_lt (a b : Z * row) : Prop := fst a < fst b.

Definition preserves {B A} (f : ioc -> B) (m : M A) : Prop :=
  forall s, f (fst (m s)) = f s.

(** The pattern occurs in [html], in the spec's terms. *)
Definition re_matches (html : text) : Prop :=
  exists pre mid ds c post,
    html = pre ++ txt "DATA.TSV" ++ mid ++ txt "left>" ++ ds ++ "<"%char :: c :: txt "td>" ++ post /\
    ~ In newline mid /\ ds <> [] /\ Forall (fun c => is_digit c = true) ds /\ c <> newline.

Definition mchan (p : string * (string * nat)) : string := fst (snd p).

Definition appends (P : event -> bool) {A} (m : M A) : Prop :=
  forall s, exists delta, trace (fst (m s)) = trace s ++ delta /\ forallb P delta = true.

(** The events the field loop emits, row key by row key. *)
Fixpoint field_events (c : ptype -> value -> option value) (r : row) (ts : Z)
    (sev : severity) : list event :=
  match r with
  | [] => []
  | (k, v) :: r' =>
      match assoc k data_key_to_property with
      | None => field_events c r' ts sev
      | Some (ch, ty) =>
          (if is_float v && default false (np_isnan v) then [EWriteQuality ch ts]
           else match c ty v with Some v' => [EWriteValue ch v' ts sev] | None => [] end)
          ++ field_events c r' ts sev
      end
  end.

Definition quality_write_to (ch : string) (e : event) : bool :=
  match e with EWriteQuality c _ => String.eqb c ch | _ => false end.

Definition value_write_to (ch : string) (e : event) : bool :=
  match e with EWriteValue c _ _ _ => String.eqb c ch | _ => false end.

Definition not_field_write (ch : string) (e : event) : bool :=
  negb (quality_write_to ch e || value_write_to ch e).

(** The overall-alarm phase of [_post_new_row]: the write it attempts
    and the [alarm_summary] it leaves. *)
Definition alarm_events (r : row) (ts : Z) : list event :=
  match summarize_alarms r with
  | Some m => [EWriteOverallAlarm m ts]
  | None => []
  end.

Definition alarm_result (write_ok : event -> bool) (r : row) (ts : Z) : value :=
  match summarize_alarms r with
  | Some m => if write_ok (EWriteOverallAlarm m ts) then m else VInt 1
  | None => VInt 1
  end.

Definition row_severity (write_ok : event -> bool) (r : row) (ts : Z) : severity :=
  if truthy (alarm_result write_ok r ts) then MAJOR_ALARM else NO_ALARM.

(** Events that are none of the row's alarm, value or quality writes. *)
Definition no_row_write (e : event) : bool :=
  match e with
  | EWriteOverallAlarm _ _ | EWriteValue _ _ _ _ | EWriteQuality _ _ => false
  | _ => true
  end.

(** Events of the status phase of a tick and of its exception handler. *)
Definition status_event (e : event) : bool :=
  match e with
  | EWriteAvailableRecords _ | EWriteServerState _ | ERequestRebuild | ECommAlarm => true
  | _ => false
  end.

(** A header line [key:value] as the export writes it. *)
Definition header_line (kv : text * text) : text := fst kv ++ ":"%char :: snd kv ++ [newline].

(** [str(n)] for a natural number. *)
Fixpoint dec_aux (fuel n : nat) (acc : text) : text :=
  match fuel with
  | O => acc
  | S f =>
      let acc' := Ascii.ascii_of_nat (48 + n mod 10) :: acc in
      if (n <? 10)%nat then acc' else dec_aux f (n / 10) acc'
  end.

Definition dec (n : nat) : text := dec_aux (S n) n [].

Definition zeros (z : nat) : text := repeat "0"%char z.

(** A field of the sample period that [int] reads as [n]: whitespace
    [a], [z] leading zeros, the decimal digits of [n], whitespace [b]. *)
Definition int_field (a : text) (z n : nat) (b : text) : text := a ++ zeros z ++ dec n ++ b.

Definition md_insert (md : gmap string string) (kv : text * text) : gmap string string :=
  <[string_of_list_ascii (py_strip (fst kv)) := string_of_list_ascii (py_strip (snd kv))]> md.

Definition header_ok (kv : text * text) : Prop :=
  ~ In ":"%char (fst kv) /\ ~ In newline (fst kv) /\ ~ In newline (snd kv).

Definition is_meta_write (e : event) : bool :=
  match e with EWriteMeta _ _ _ => true | _ => false end.

Definition pv_data (s : ioc) : Z * Z * value * gmap string string :=
  (last_timestamp s, sync_records s, overall_alarm s, meta_pv s).

Definition page_new_data : text := txt "New data available.".

Definition ioc0 : ioc := mkIoc "unknown" 0 0 0 (VInt 0) ∅ [].

Definition page_download : text := txt "Click link above to download".

Definition ioc_ready : ioc := mkIoc "download" 5 2 1 (VInt 0) ∅ [].

Definition md_example : gmap string string :=
  <["Model Number" := "985"]> (<["Serial Number" := "123456789"]> ∅).

Definition dup_table : table := [(200001, []); (200001, [])].

Definition ioc_dup : ioc := mkIoc "download" 5 2 1 (VInt 0) ∅ [].

(** The pages of [n] successive [GET /] requests from state [st]. *)
Fixpoint main_pages (n : nat) (st : sim_state) : list string :=
  match n with
  | O => []
  | S n' => STATE_TO_HTML st :: main_pages n' (transition st)
  end.

(** * Facts about the table order *)

Lemma ts_sorted_tail (x : Z * row) (l : table) :
  ts_sorted (x :: l) = true -> ts_sorted l = true.
Proof. destruct l; simpl; [auto|]. intros H; apply andb_true_iff in H; tauto. Qed.


Lemma ts_sorted_head (x : Z * row) (l : table) :
  ts_sorted (x :: l) = true -> Forall (fun y => fst x <= fst y) l.
Proof.
  revert x. induction l as [|y l IH]; intros x H; [constructor|].
  simpl in H. apply andb_true_iff in H as [Hxy Hl]. apply Z.leb_le in Hxy.
  constructor; [lia|].
  eapply Forall_impl; [exact (IH y Hl)|]. simpl. intros; lia.
Qed.

Lemma ts_strict_sorted (l : table) : ts_strict l = true -> ts_sorted l = true.
Proof.
  induction l as [|x [|y l] IH]; simpl; auto.
  intros H. apply andb_true_iff in H as [H1 H2]. apply Z.ltb_lt in H1.
  apply andb_true_iff; split; [apply Z.leb_le; lia|]. apply IH. exact H2.
Qed.



Lemma tail1_cons2 (x y : Z * row) (l : table) : tail1 (x :: y :: l) = tail1 (y :: l).
Proof.
  unfold tail1. simpl length.
  replace (S (S (length l)) - 1)%nat with (S (length l)) by lia.
  replace (S (length l) - 1)%nat with (length l) by lia. reflexivity.
Qed.

Lemma tail1_last (df : table) (d : Z * row) :
  df <> [] -> tail1 df = [List.last df d].
Proof.
  induction df as [|x [|y l] IH]; intros Hne; [congruence|reflexivity|].
  rewrite tail1_cons2. change (List.last (x :: y :: l) d) with (List.last (y :: l) d).
  apply IH. discriminate.
Qed.

Lemma tail1_nil : tail1 [] = [].
Proof. reflexivity. Qed.

Lemma last_in (df : table) (d : Z * row) : df <> [] -> In (List.last df d) df.
Proof.
  induction df as [|x [|y l] IH]; intros Hne; [congruence|left; reflexivity|].
  right. apply IH. discriminate.
Qed.

(** The last row of an ordered table is its most recent one. *)
Lemma ts_sorted_last (df : table) (d y : Z * row) :
  ts_sorted df = true -> In y df -> fst y <= fst (List.last df d).
Proof.
  induction df as [|x [|z l] IH]; intros Hs Hin; [contradiction| |].
  - destruct Hin as [<-|[]]; simpl; lia.
  - change (List.last (x :: z :: l) d) with (List.last (z :: l) d).
    destruct Hin as [<-|Hin].
    + pose proof (ts_sorted_head _ _ Hs) as Hf. rewrite List.Forall_forall in Hf.
      apply Hf, last_in. discriminate.
    + apply IH; [exact (ts_sorted_tail _ _ Hs)|exact Hin].
Qed.

(** * [sorted(...)] on the selected rows *)

Lemma insert_row_spec (x : Z * row) (l l' : table) :
  StronglySorted ts_lt l -> insert_row x l = Some l' ->
  StronglySorted ts_lt l' /\ Permutation (x :: l) l'.
Proof.
  revert l'. induction l as [|y l IH]; intros l' Hs Hins; simpl in Hins.
  - injection Hins as <-. split; [repeat constructor|reflexivity].
  - destruct (fst x <? fst y) eqn:E1.
    + injection Hins as <-. apply Z.ltb_lt in E1.
      apply StronglySorted_inv in Hs as [Hs Hf].
      split; [|reflexivity]. constructor; [constructor; assumption|].
      constructor; [exact E1|].
      rewrite List.Forall_forall in *. intros z Hz. unfold ts_lt in *.
      specialize (Hf z Hz). lia.
    + destruct (fst x =? fst y) eqn:E2; [discriminate|].
      destruct (insert_row x l) as [m|] eqn:Hm; simpl in Hins; [|discriminate].
      injection Hins as <-.
      apply StronglySorted_inv in Hs as [Hs Hf].
      destruct (IH m Hs eq_refl) as [Hm1 Hm2].
      apply Z.ltb_ge in E1. apply Z.eqb_neq in E2.
      split.
      * constructor; [exact Hm1|].
        rewrite List.Forall_forall in *. intros z Hz.
        assert (Hz' : In z (x :: l)) by (eapply Permutation_in; [symmetry; exact Hm2|exact Hz]).
        destruct Hz' as [<-|Hz']; [unfold ts_lt; lia|apply Hf, Hz'].
      * rewrite <- Hm2. apply perm_swap.
Qed.

Lemma sorted_rows_spec (l l' : table) :
  sorted_rows l = Some l' -> StronglySorted ts_lt l' /\ Permutation l l'.
Proof.
  revert l'. induction l as [|x l IH]; intros l' H; simpl in H.
  - injection H as <-. split; constructor.
  - destruct (sorted_rows l) as [m|] eqn:Hm; [|discriminate].
    destruct (IH m eq_refl) as [Hs Hp].
    destruct (insert_row_spec x m l' Hs H) as [Hs' Hp'].
    split; [exact Hs'|]. rewrite <- Hp'. constructor. exact Hp.
Qed.








(** * Which process variables a coroutine can change *)

Section Preserves.

Context {B : Type} (f : ioc -> B).

Lemma preserves_ret {A} (a : A) : preserves f (retM a).
Proof. intros s; reflexivity. Qed.

Lemma preserves_raise {A} : preserves f (@raise A).
Proof. intros s; reflexivity. Qed.

Lemma preserves_get : preserves f getM.
Proof. intros s; reflexivity. Qed.

Lemma preserves_lift {A} (o : option A) : preserves f (lift_opt o).
Proof. destruct o; intros s; reflexivity. Qed.

Lemma preserves_log (e : event) :
  (forall s, f (log_event e s) = f s) -> preserves f (log e).
Proof. intros H s. apply H. Qed.

Lemma preserves_emit (w : event -> bool) (e : event) :
  (forall s, f (log_event e s) = f s) ->
  (forall s, f (apply_event e s) = f s) -> preserves f (emit w e).
Proof.
  intros Hl Ha s. unfold emit. destruct (w e); simpl; rewrite ?Ha; apply Hl.
Qed.

Lemma preserves_bind {A C} (m : M A) (k : A -> M C) :
  preserves f m -> (forall a, preserves f (k a)) -> preserves f (mbind k m).
Proof.
  intros Hm Hk s. specialize (Hm s). unfold mbind, M_bind, bindM.
  destruct (m s) as [s1 [a|]]; simpl in *; [rewrite Hk|]; exact Hm.
Qed.

Lemma preserves_catch {A} (m h : M A) :
  preserves f m -> preserves f h -> preserves f (catchM m h).
Proof.
  intros Hm Hh s. specialize (Hm s). unfold catchM.
  destruct (m s) as [s1 [a|]]; simpl in *; [|rewrite Hh]; exact Hm.
Qed.

End Preserves.

Ltac preserve_step :=
  match goal with
  | |- preserves _ (mbind _ _) => apply preserves_bind; [|intro]
  | |- preserves _ (catchM _ _) => apply preserves_catch
  | |- preserves _ (retM _) => apply preserves_ret
  | |- preserves _ raise => apply preserves_raise
  | |- preserves _ getM => apply preserves_get
  | |- preserves _ (lift_opt _) => apply preserves_lift
  | |- preserves _ (log _) => apply preserves_log; intros; first [reflexivity|auto]
  | |- preserves _ (emit _ _) =>
      apply preserves_emit; intros; first [reflexivity|auto]
  | |- preserves _ (match ?x with _ => _ end) => destruct x
  | |- preserves _ (if ?b then _ else _) => destruct b
  end.

Ltac preserve_tac := repeat preserve_step.

Section RowPublishing.

Context {B : Type} (f : ioc -> B).
Hypothesis f_log : forall e s, f (log_event e s) = f s.
Hypothesis f_overall : forall v t s, f (apply_event (EWriteOverallAlarm v t) s) = f s.
Variables (write_ok : event -> bool) (type_cast : ptype -> value -> option value).




End RowPublishing.

Lemma update_metadata_preserves {B} (f : ioc -> B) (w : event -> bool) md now :
  (forall e s, f (log_event e s) = f s) ->
  (forall ch v t s, f (apply_event (EWriteMeta ch v t) s) = f s) ->
  preserves f (update_metadata w md now).
Proof.
  intros Hl Hm. unfold update_metadata.
  induction metadata_to_property as [|[key [ch n]] props IH]; simpl; [preserve_tac|].
  apply preserves_bind; [|intros _; exact IH].
  unfold write_metadata_if_changed. preserve_tac.
Qed.

(** * The watermark during [_download_and_update] *)

Section Watermark.

Variables (write_ok : event -> bool) (type_cast : ptype -> value -> option value).




End Watermark.

(** * The row diff *)









(** ** Claim C2.
    With a watermark below 1e-6 s (cold start) the diff of any non-empty
    table is the single last row, whatever [lastKnownCount] and the
    table's length; on a time-ordered table that row is the most recent
    one. *)
Theorem find_new_rows_cold_start (last sync : Z) (df : table) (d : Z * row) :
  last < 1 -> df <> [] ->
  find_new_rows last sync df = [List.last df d] /\
  (ts_sorted df = true -> forall y, In y df -> fst y <= fst (List.last df d)).
Proof.
  intros Hl Hne. unfold find_new_rows.
  replace (last <? 1) with true by (symmetry; apply Z.ltb_lt; exact Hl).
  split; [apply tail1_last; exact Hne|].
  intros Hs y Hy. apply ts_sorted_last; assumption.
Qed.

Lemma find_new_rows_cold_start_witness :
  0 < 1 /\ [(1000000, []); (2000000, [])] <> ([] : table) /\
  find_new_rows 0 7 [(1000000, []); (2000000, [])] =
    [List.last [(1000000, []); (2000000, [])] (0, [])].
Proof.
  split; [lia|]. split; [discriminate|].
  apply (find_new_rows_cold_start 0 7 [(1000000, []); (2000000, [])] (0, []));
    [lia|discriminate].
Defined.



(** * The status interpreter *)

Lemma prefixb_spec (p t : text) : prefixb p t = true <-> exists r, t = p ++ r.
Proof.
  revert t. induction p as [|a p IH]; intros t; simpl.
  - split; [intros _; exists t; reflexivity|auto].
  - destruct t as [|b t].
    + split; [discriminate|intros [r Hr]; discriminate].
    + rewrite andb_true_iff, IH. split.
      * intros [Hab [r Hr]]. apply Ascii.eqb_eq in Hab. subst. exists r. reflexivity.
      * intros [r Hr]. injection Hr as -> ->. split; [apply Ascii.eqb_refl|]. exists r; reflexivity.
Qed.

Lemma contains_spec (n t : text) : contains n t = true <-> exists a b, t = a ++ n ++ b.
Proof.
  induction t as [|c t IH]; simpl; rewrite orb_true_iff, prefixb_spec.
  - split.
    + intros [[r Hr]|H]; [exists [], r; exact Hr|discriminate].
    + intros [a [b H]]. left. exists b. destruct a; [exact H|discriminate].
  - rewrite IH. split.
    + intros [[r Hr]|[a [b Hab]]].
      * exists [], r. exact Hr.
      * exists (c :: a), b. rewrite Hab. reflexivity.
    + intros [a [b H]]. destruct a as [|c' a].
      * left. exists b. exact H.
      * right. injection H as _ H. exists a, b. exact H.
Qed.

Lemma span_digits_spec (t ds rest : text) :
  span_digits t = (ds, rest) -> t = ds ++ rest /\ Forall (fun c => is_digit c = true) ds.
Proof.
  revert ds rest. induction t as [|c t IH]; intros ds rest H; simpl in H.
  - injection H as <- <-. split; [reflexivity|constructor].
  - destruct (is_digit c) eqn:Ed.
    + destruct (span_digits t) as [ds' rest'] eqn:Es. injection H as <- <-.
      destruct (IH ds' rest' eq_refl) as [H1 H2]. split; [rewrite H1; reflexivity|].
      constructor; assumption.
    + injection H as <- <-. split; [reflexivity|constructor].
Qed.

Lemma span_digits_app (ds rest : text) :
  Forall (fun c => is_digit c = true) ds ->
  match rest with [] => True | c :: _ => is_digit c = false end ->
  span_digits (ds ++ rest) = (ds, rest).
Proof.
  intros Hds Hr. induction Hds as [|c ds Hc _ IH]; simpl.
  - destruct rest as [|c rest]; [reflexivity|]. simpl. rewrite Hr. reflexivity.
  - rewrite Hc, IH. reflexivity.
Qed.

Lemma skipn_app_length (p r : text) : skipn (length p) (p ++ r) = r.
Proof. induction p; simpl; auto. Qed.

Lemma match_tail_some (t ds : text) :
  match_tail t = Some ds ->
  exists c post, t = txt "left>" ++ ds ++ "<"%char :: c :: txt "td>" ++ post /\
    ds <> [] /\ Forall (fun c => is_digit c = true) ds /\ c <> newline.
Proof.
  unfold match_tail. destruct (prefixb (txt "left>") t) eqn:Hp; [|discriminate].
  apply prefixb_spec in Hp as [r ->].
  change 5%nat with (length (txt "left>")). rewrite skipn_app_length.
  destruct (span_digits r) as [ds0 rest] eqn:Hs.
  destruct (span_digits_spec _ _ _ Hs) as [-> Hd].
  destruct ds0 as [|d0 ds0]; [discriminate|].
  destruct rest as [|lt [|c rest']]; try discriminate.
  destruct (Ascii.eqb lt "<"%char) eqn:E1; [|discriminate].
  destruct (Ascii.eqb c newline) eqn:E2; [discriminate|].
  destruct (prefixb (txt "td>") rest') eqn:E3; [|discriminate].
  simpl. intros H. injection H as <-.
  apply Ascii.eqb_eq in E1. subst lt. apply prefixb_spec in E3 as [post ->].
  exists c, post. split; [reflexivity|]. split; [discriminate|]. split; [exact Hd|].
  intros ->. rewrite Ascii.eqb_refl in E2. discriminate.
Qed.

Lemma match_tail_complete (ds c post : text) (c0 : ascii) :
  ds <> [] -> Forall (fun c => is_digit c = true) ds -> c0 <> newline ->
  match_tail (txt "left>" ++ ds ++ "<"%char :: c0 :: txt "td>" ++ post) = Some ds.
Proof.
  intros Hne Hd Hc. unfold match_tail.
  rewrite (proj2 (prefixb_spec _ _)) by (eexists; reflexivity).
  change 5%nat with (length (txt "left>")). rewrite skipn_app_length.
  rewrite span_digits_app by (assumption || reflexivity).
  destruct ds as [|d ds]; [congruence|].
  replace (Ascii.eqb c0 newline) with false by (symmetry; apply Ascii.eqb_neq; exact Hc).
  rewrite (proj2 (prefixb_spec (txt "td>") _)) by (eexists; reflexivity).
  reflexivity.
Qed.

Lemma match_lazy_some (t ds : text) :
  match_lazy t = Some ds ->
  exists mid rest, t = mid ++ rest /\ ~ In newline mid /\ match_tail rest = Some ds.
Proof.
  induction t as [|c t IH]; simpl.
  - intros H. vm_compute in H. discriminate.
  - destruct (match_tail (c :: t)) as [ds'|] eqn:Hm.
   + intros H. injection H as <-. exists [], (c :: t). auto.
   + destruct (Ascii.eqb c newline) eqn:Ec; [discriminate|].
    intros H. destruct (IH H) as [mid [rest [-> [Hn Ht]]]].
    exists (c :: mid), rest. split; [reflexivity|]. split; [|exact Ht].
    intros [Hc|Hin]; [subst; rewrite Ascii.eqb_refl in Ec; discriminate|contradiction].
Qed.

Lemma match_lazy_complete (mid rest ds : text) :
  ~ In newline mid -> match_tail rest = Some ds -> match_lazy (mid ++ rest) <> None.
Proof.
  induction mid as [|c mid IH]; intros Hn Ht; simpl.
  - simpl app. destruct rest as [|c rest]; cbn [match_lazy]; rewrite Ht; discriminate.
  - destruct (match_tail (c :: mid ++ rest)); [discriminate|].
    replace (Ascii.eqb c newline) with false
      by (symmetry; apply Ascii.eqb_neq; intros ->; apply Hn; left; reflexivity).
    apply IH; [intros Hin; apply Hn; right; exact Hin|exact Ht].
Qed.

Lemma re_search_some (t ds : text) :
  re_search t = Some ds -> re_matches t.
Proof.
  induction t as [|x t IH]; simpl.
  - intros H. vm_compute in H. discriminate.
  - destruct (match_at (x :: t)) as [ds'|] eqn:Hm.
   + intros _. unfold match_at in Hm.
    destruct (prefixb (txt "DATA.TSV") (x :: t)) eqn:Hp; [|discriminate].
    apply prefixb_spec in Hp as [r Hr]. rewrite Hr in Hm.
    change 8%nat with (length (txt "DATA.TSV")) in Hm. rewrite skipn_app_length in Hm.
    destruct (match_lazy_some _ _ Hm) as [mid [rest [-> [Hn Ht]]]].
    destruct (match_tail_some _ _ Ht) as [c [post [-> [H1 [H2 H3]]]]].
    exists [], mid, ds', c, post. split; [exact Hr|]. auto.
   + intros H. destruct (IH H) as [pre [mid [ds0 [c [post [Ht Hrest]]]]]].
    exists (x :: pre), mid, ds0, c, post. rewrite Ht. split; [reflexivity|exact Hrest].
Qed.

Lemma re_search_prefix (pre t : text) :
  match_at t <> None -> re_search (pre ++ t) <> None.
Proof.
  intros H. induction pre as [|x pre IH].
  - simpl app. destruct t as [|y t]; [exfalso; apply H; reflexivity|].
    cbn [re_search]. destruct (match_at (y :: t)); [discriminate|congruence].
  - cbn [re_search app]. destruct (match_at (x :: pre ++ t)); [discriminate|exact IH].
Qed.

Lemma re_search_complete (t : text) : re_matches t -> re_search t <> None.
Proof.
  intros [pre [mid [ds [c [post [-> [Hn [Hne [Hd Hc]]]]]]]]].
  apply re_search_prefix. unfold match_at.
  rewrite (proj2 (prefixb_spec _ _)) by (eexists; reflexivity).
  change 8%nat with (length (txt "DATA.TSV")). rewrite skipn_app_length.
  apply (match_lazy_complete mid _ ds Hn). apply match_tail_complete; assumption.
Qed.

Lemma contains_false (n t : text) :
  ~ (exists a b, t = a ++ n ++ b) -> contains n t = false.
Proof.
  intros H. destruct (contains n t) eqn:E; [|reflexivity].
  exfalso. apply H, contains_spec, E.
Qed.

Lemma get_state_information_some (html : text) (info : state_info) :
  get_state_information html = Some info ->
  si_state info =
    (if contains (txt "New data available.") html then "new_data"
     else if contains (txt "Building Data file") html then "rebuilding"
     else if contains (txt "Click link above to download") html then "download"
     else "unknown") /\
  (si_records info = None <-> re_search html = None).
Proof.
  unfold get_state_information. cbv zeta.
  destruct (re_search html) as [ds|]; [destruct (py_int_digits ds)|];
    intros H; try discriminate H; injection H as <-; cbn [si_state si_records];
    (split; [reflexivity|split; discriminate || reflexivity]).
Qed.

(** ** Claim C8 (as corrected).
    [get_state_information] raises exactly when [RE_NUM_RECORDS] matches
    with a group of more than [int_max_str_digits] digits: [int(records)]
    then raises [ValueError].  On every other page it returns.  When it
    returns, the state is decided by a first-match containment test over
    the three markers, in the order new data, rebuilding, ready to
    download, and is [unknown] when none occurs; the record count is
    present exactly when [RE_NUM_RECORDS] matches, and absent (not zero)
    otherwise. *)
Theorem get_state_information_spec (html : text) :
  (get_state_information html = None <->
     exists ds, re_search html = Some ds /\ (int_max_str_digits < length ds)%nat) /\
  forall info, get_state_information html = Some info ->
  ((exists a b, html = a ++ txt "New data available." ++ b) ->
     si_state info = "new_data") /\
  (~ (exists a b, html = a ++ txt "New data available." ++ b) ->
   (exists a b, html = a ++ txt "Building Data file" ++ b) ->
     si_state info = "rebuilding") /\
  (~ (exists a b, html = a ++ txt "New data available." ++ b) ->
   ~ (exists a b, html = a ++ txt "Building Data file" ++ b) ->
   (exists a b, html = a ++ txt "Click link above to download" ++ b) ->
     si_state info = "download") /\
  (~ (exists a b, html = a ++ txt "New data available." ++ b) ->
   ~ (exists a b, html = a ++ txt "Building Data file" ++ b) ->
   ~ (exists a b, html = a ++ txt "Click link above to download" ++ b) ->
     si_state info = "unknown") /\
  ((exists n, si_records info = Some n) <-> re_matches html) /\
  (~ re_matches html -> si_records info = None).
Proof.
  split.
  - unfold get_state_information. cbv zeta.
    destruct (re_search html) as [ds|] eqn:E.
    + unfold py_int_digits.
      destruct (Nat.leb_spec (length ds) int_max_str_digits) as [L|L]; split.
      * discriminate.
      * intros [ds' [E' L']]. injection E' as <-. lia.
      * intros _. exists ds. auto.
      * intros _. reflexivity.
    + split; [discriminate|]. intros [ds' [E' _]]. discriminate E'.
  - intros info Hi. destruct (get_state_information_some _ _ Hi) as [Hs Hr].
    rewrite Hs. split; [|split; [|split; [|split; [|split]]]].
    + intros H. apply contains_spec in H. rewrite H. reflexivity.
    + intros H1 H2. rewrite (contains_false _ _ H1).
      apply contains_spec in H2. rewrite H2. reflexivity.
    + intros H1 H2 H3. rewrite (contains_false _ _ H1), (contains_false _ _ H2).
      apply contains_spec in H3. rewrite H3. reflexivity.
    + intros H1 H2 H3.
      rewrite (contains_false _ _ H1), (contains_false _ _ H2), (contains_false _ _ H3).
      reflexivity.
    + split.
      * intros [n Hn]. destruct (re_search html) as [ds|] eqn:E.
        -- exact (re_search_some _ _ E).
        -- rewrite (proj2 Hr eq_refl) in Hn. discriminate Hn.
      * intros Hm. destruct (si_records info) as [n|] eqn:E; [exists n; reflexivity|].
        exfalso. exact (re_search_complete _ Hm (proj1 Hr eq_refl)).
    + intros Hm. apply Hr. destruct (re_search html) as [ds|] eqn:E; [|reflexivity].
      exfalso. exact (Hm (re_search_some _ _ E)).
Qed.

(** C8 as stated fails: a page whose record count has 4301 digits makes
    [int(records)] raise [ValueError], so [get_state_information] raises. *)
Lemma get_state_information_counterexample :
  re_search (txt "DATA.TSV left>" ++ repeat "1"%char 4301 ++ txt "</td>") =
    Some (repeat "1"%char 4301) /\
  get_state_information (txt "DATA.TSV left>" ++ repeat "1"%char 4301 ++ txt "</td>") = None.
Proof. split; vm_compute; reflexivity. Qed.

(** * Metadata channels *)

Lemma write_metadata_if_changed_step w ch n v now s s1 :
  write_metadata_if_changed w ch n v now s = (s1, Ret tt) ->
  (String.eqb (default "" (meta_pv s !! ch)) (String.substring 0 n v) = true /\ s1 = s) \/
  (String.eqb (default "" (meta_pv s !! ch)) (String.substring 0 n v) = false /\
   meta_pv s1 = <[ch := String.substring 0 n v]> (meta_pv s) /\
   trace s1 = trace s ++ [EWriteMeta ch (String.substring 0 n v) now]).
Proof.
  unfold write_metadata_if_changed, mbind, M_bind, bindM, getM. cbv zeta.
  destruct (String.eqb _ _) eqn:E.
  - intros H. injection H as <-. left. auto.
  - unfold emit. destruct (w _); intros H; [|discriminate].
    injection H as <-. right. auto.
Qed.

Lemma update_metadata_from_spec w props md now s s' :
  List.NoDup (map mchan props) ->
  update_metadata_from w props md now s = (s', Ret tt) ->
  exists delta, trace s' = trace s ++ delta /\
  (forall ch, ~ In ch (map mchan props) ->
     meta_pv s' !! ch = meta_pv s !! ch /\ forall v t, ~ In (EWriteMeta ch v t) delta) /\
  (forall key ch n, In (key, (ch, n)) props ->
     meta_pv s' !! ch =
       (if String.eqb (default "" (meta_pv s !! ch))
             (String.substring 0 n (default "unknown" (md !! key)))
        then meta_pv s !! ch
        else Some (String.substring 0 n (default "unknown" (md !! key)))) /\
     (forall v' t, In (EWriteMeta ch v' t) delta <->
        v' = String.substring 0 n (default "unknown" (md !! key)) /\ t = now /\
        String.eqb (default "" (meta_pv s !! ch))
          (String.substring 0 n (default "unknown" (md !! key))) = false)).
Proof.
  revert s. induction props as [|[key [ch n]] props IH]; intros s Hnd H.
  - simpl in H. injection H as <-. exists []. split; [rewrite app_nil_r; reflexivity|].
    split; [intros ch _; split; [reflexivity|intros v t []]|intros key ch n []].
  - simpl in Hnd. apply List.NoDup_cons_iff in Hnd as [Hch Hnd]. simpl in Hch. unfold mchan at 1 in Hch. simpl in Hch.
    simpl in H. unfold mbind, M_bind, bindM in H.
    destruct (write_metadata_if_changed w ch n (default "unknown" (md !! key)) now s)
      as [s1 [[]|]] eqn:Hw; [|discriminate].
    destruct (IH s1 Hnd H) as [delta [Ht [Hout Hin]]].
    destruct (write_metadata_if_changed_step _ _ _ _ _ _ _ Hw) as [[Eq ->]|[Eq [Hm Htr]]].
    + exists delta. split; [exact Ht|]. split.
      * intros ch0 Hn. apply Hout. intros Hi. apply Hn. right. exact Hi.
      * intros key0 ch0 n0 [Hhd|Hi].
        -- injection Hhd as <- <- <-. rewrite Eq.
           destruct (Hout ch Hch) as [E1 E2]. split; [exact E1|].
           intros v' t. split; [intros Hi; exfalso; exact (E2 _ _ Hi)|].
           intros [_ [_ Hf]]. discriminate.
        -- exact (Hin key0 ch0 n0 Hi).
    + exists (EWriteMeta ch (String.substring 0 n (default "unknown" (md !! key))) now :: delta).
      split; [rewrite Ht, Htr, <- app_assoc; reflexivity|]. split.
      * intros ch0 Hn. assert (Hne : ch <> ch0) by (intros ->; apply Hn; left; reflexivity).
        destruct (Hout ch0 (fun Hi => Hn (or_intror Hi))) as [E1 E2].
        split; [rewrite E1, Hm; apply lookup_insert_ne; exact Hne|].
        intros v t [He|Hi]; [injection He as He; congruence|exact (E2 _ _ Hi)].
      * intros key0 ch0 n0 [Hhd|Hi].
        -- injection Hhd as <- <- <-. rewrite Eq.
           destruct (Hout ch Hch) as [E1 E2].
           split; [rewrite E1, Hm; apply lookup_insert_eq|].
           intros v' t. split.
           ++ intros [He|Hi]; [injection He as -> ->; auto|exfalso; exact (E2 _ _ Hi)].
           ++ intros [-> [-> _]]. left. reflexivity.
        -- assert (Hne : ch <> ch0).
           { intros ->. apply Hch. apply (in_map mchan) in Hi. exact Hi. }
           destruct (Hin key0 ch0 n0 Hi) as [E1 E2].
           rewrite Hm, (lookup_insert_ne _ _ _ _ Hne) in E1, E2.
           split; [exact E1|]. intros v' t. rewrite <- E2. split.
           ++ intros [He|Hi']; [injection He as He; congruence|exact Hi'].
           ++ intros Hi'. right. exact Hi'.
Qed.

Lemma metadata_channels_nodup : List.NoDup (map mchan metadata_to_property).
Proof.
  simpl. repeat constructor; simpl; intros H; repeat destruct H as [H|H]; try discriminate; contradiction.
Qed.

(** ** Claim C10.
    After [_update_metadata] completes, every metadata channel whose key
    is absent from the header dictionary holds ['unknown'] truncated to
    the channel's [max_length]; the pass wrote that value to the channel
    exactly when the channel's previous value differed from it, and
    wrote nothing else to it. *)
Theorem update_metadata_absent_key (write_ok : event -> bool) (md : gmap string string)
    (now : Z) (s s' : ioc) (key ch : string) (n : nat) :
  update_metadata write_ok md now s = (s', Ret tt) ->
  In (key, (ch, n)) metadata_to_property -> md !! key = None ->
  meta_pv s' !! ch = Some (String.substring 0 n "unknown") /\
  exists delta, trace s' = trace s ++ delta /\
    (forall v t, In (EWriteMeta ch v t) delta <->
       v = String.substring 0 n "unknown" /\ t = now /\
       default "" (meta_pv s !! ch) <> String.substring 0 n "unknown").
Proof.
  intros H Hin Hkey.
  assert (Hn : n = 40%nat).
  { simpl in Hin. repeat destruct Hin as [Hin|Hin]; try (injection Hin; auto); contradiction. }
  subst n.
  destruct (update_metadata_from_spec _ _ _ _ _ _ metadata_channels_nodup H)
    as [delta [Ht [_ Hall]]].
  destruct (Hall key ch 40%nat Hin) as [E1 E2]. rewrite Hkey in E1, E2. simpl default in E1, E2.
  split.
  - rewrite E1. destruct (String.eqb _ _) eqn:E; [|reflexivity].
    apply String.eqb_eq in E. destruct (meta_pv s !! ch) as [x|]; simpl in E.
    + rewrite E. reflexivity.
    + discriminate.
  - exists delta. split; [exact Ht|]. intros v t. rewrite E2.
    split; intros [-> [-> Hd]]; (split; [reflexivity|split; [reflexivity|]]).
    + intros Heq. apply String.eqb_eq in Heq. congruence.
    + apply String.eqb_neq. exact Hd.
Qed.

Lemma update_metadata_absent_key_witness :
  update_metadata (fun _ => true) ∅ 7 (mkIoc "unknown" 0 0 0 (VInt 0) ∅ []) =
    (fst (update_metadata (fun _ => true) ∅ 7 (mkIoc "unknown" 0 0 0 (VInt 0) ∅ [])), Ret tt) /\
  meta_pv (fst (update_metadata (fun _ => true) ∅ 7 (mkIoc "unknown" 0 0 0 (VInt 0) ∅ [])))
    !! "serial_number" = Some (String.substring 0 40 "unknown").
Proof.
  assert (H : update_metadata (fun _ => true) ∅ 7 (mkIoc "unknown" 0 0 0 (VInt 0) ∅ []) =
    (fst (update_metadata (fun _ => true) ∅ 7 (mkIoc "unknown" 0 0 0 (VInt 0) ∅ [])), Ret tt))
    by reflexivity.
  split; [exact H|].
  apply (update_metadata_absent_key (fun _ => true) ∅ 7 _ _ "Serial Number" "serial_number" 40 H).
  - simpl. tauto.
  - reflexivity.
Defined.

(** * What a coroutine appends to the trace *)

Section Appends.

Variable P : event -> bool.

Lemma appends_ret {A} (a : A) : appends P (retM a).
Proof. intros s. exists []. rewrite app_nil_r. auto. Qed.

Lemma appends_raise {A} : appends P (@raise A).
Proof. intros s. exists []. rewrite app_nil_r. auto. Qed.

Lemma appends_get : appends P getM.
Proof. intros s. exists []. rewrite app_nil_r. auto. Qed.

Lemma appends_lift {A} (o : option A) : appends P (lift_opt o).
Proof. destruct o; [apply appends_ret|apply appends_raise]. Qed.

Lemma appends_log e : P e = true -> appends P (log e).
Proof. intros He s. exists [e]. simpl. rewrite He. auto. Qed.

Lemma apply_event_trace e s : trace (apply_event e s) = trace s.
Proof. destruct e; reflexivity. Qed.

Lemma emit_trace w e s : trace (fst (emit w e s)) = trace s ++ [e].
Proof. unfold emit. destruct (w e); simpl; [rewrite apply_event_trace|]; reflexivity. Qed.

Lemma appends_emit w e : P e = true -> appends P (emit w e).
Proof. intros He s. exists [e]. rewrite emit_trace. simpl. rewrite He. auto. Qed.

Lemma appends_bind {A C} (m : M A) (k : A -> M C) :
  appends P m -> (forall a, appends P (k a)) -> appends P (mbind k m).
Proof.
  intros Hm Hk s. destruct (Hm s) as [d1 [E1 F1]]. unfold mbind, M_bind, bindM.
  destruct (m s) as [s1 [a|]]; simpl in *.
  - destruct (Hk a s1) as [d2 [E2 F2]]. exists (d1 ++ d2).
    rewrite E2, E1, app_assoc. split; [reflexivity|]. rewrite forallb_app, F1, F2. reflexivity.
  - exists d1. auto.
Qed.

Lemma appends_catch {A} (m h : M A) :
  appends P m -> appends P h -> appends P (catchM m h).
Proof.
  intros Hm Hh s. destruct (Hm s) as [d1 [E1 F1]]. unfold catchM.
  destruct (m s) as [s1 [a|]]; simpl in *.
  - exists d1. auto.
  - destruct (Hh s1) as [d2 [E2 F2]]. exists (d1 ++ d2).
    rewrite E2, E1, app_assoc. split; [reflexivity|]. rewrite forallb_app, F1, F2. reflexivity.
Qed.

End Appends.

Ltac appends_step :=
  match goal with
  | |- appends _ (mbind _ _) => apply appends_bind; [|intro]
  | |- appends _ (catchM _ _) => apply appends_catch
  | |- appends _ (retM _) => apply appends_ret
  | |- appends _ raise => apply appends_raise
  | |- appends _ getM => apply appends_get
  | |- appends _ (lift_opt _) => apply appends_lift
  | |- appends _ (log _) => apply appends_log; first [reflexivity|auto]
  | |- appends _ (emit _ _) => apply appends_emit; first [reflexivity|auto]
  | |- appends _ (match ?x with _ => _ end) => destruct x
  | |- appends _ (if ?b then _ else _) => destruct b
  end.

Ltac appends_tac := repeat appends_step.

Lemma post_field_never_raises w c ch ty v ts sev s :
  snd (post_field w c ch ty v ts sev s) = Ret tt.
Proof.
  unfold post_field, catchM.
  destruct (is_float v && default false (np_isnan v));
    [|destruct (c ty v)]; simpl;
    repeat match goal with |- context [match ?m with _ => _ end] =>
      destruct m as [? [[]|]] end; reflexivity.
Qed.

Lemma post_field_trace w c ch ty v ts sev s :
  trace (fst (post_field w c ch ty v ts sev s)) = trace s ++
    (if is_float v && default false (np_isnan v) then [EWriteQuality ch ts]
     else match c ty v with Some v' => [EWriteValue ch v' ts sev] | None => [] end).
Proof.
  unfold post_field, catchM.
  destruct (is_float v && default false (np_isnan v)).
  - rewrite <- (emit_trace w). destruct (emit w _ s) as [s1 [[]|]]; reflexivity.
  - destruct (c ty v) as [v'|].
    + rewrite <- (emit_trace w). destruct (emit w _ s) as [s1 [[]|]]; reflexivity.
    + simpl. rewrite app_nil_r. reflexivity.
Qed.

Lemma post_fields_trace w c r ts sev vv s :
  snd (post_fields w c r ts sev vv s) <> Raise /\
  trace (fst (post_fields w c r ts sev vv s)) = trace s ++ field_events c r ts sev.
Proof.
  revert vv s. induction r as [|[k v] r IH]; intros vv s; cbn [post_fields field_events].
  - rewrite app_nil_r. split; [discriminate|reflexivity].
  - destruct (assoc k data_key_to_property) as [[ch ty]|]; [|apply IH].
    unfold mbind, M_bind, bindM.
    pose proof (post_field_never_raises w c ch ty v ts sev s) as Hr.
    pose proof (post_field_trace w c ch ty v ts sev s) as Ht.
    destruct (post_field w c ch ty v ts sev s) as [s1 o1]. simpl in Hr, Ht. subst o1.
    destruct (IH (Some (rebound_value c ty v)) s1) as [IHr IHt].
    split; [exact IHr|]. rewrite IHt, Ht, app_assoc. reflexivity.
Qed.

Lemma assoc_in {B} (k : string) (l : list (string * B)) b :
  assoc k l = Some b -> In (k, b) l.
Proof.
  induction l as [|[k' b'] l IH]; simpl; [discriminate|].
  destruct (String.eqb_spec k k') as [->|]; [intros [= ->]; auto|auto].
Qed.

Lemma nodup_map_inj {A B} (f : A -> B) (l : list A) a b :
  List.NoDup (map f l) -> In a l -> In b l -> f a = f b -> a = b.
Proof.
  induction l as [|x l IH]; simpl; [tauto|].
  intros Hnd Ha Hb Hf. apply List.NoDup_cons_iff in Hnd as [Hx Hnd].
  destruct Ha as [<-|Ha], Hb as [<-|Hb]; auto.
  - exfalso. apply Hx. rewrite Hf. apply in_map. exact Hb.
  - exfalso. apply Hx. rewrite <- Hf. apply in_map. exact Ha.
Qed.

Lemma data_key_channels_nodup :
  List.NoDup (map (fun p => fst (snd p)) data_key_to_property).
Proof.
  simpl. repeat (apply List.NoDup_cons; [simpl; intuition discriminate|]).
  apply List.NoDup_nil.
Qed.

Lemma data_key_channel_inj k1 k2 ch t1 t2 :
  assoc k1 data_key_to_property = Some (ch, t1) ->
  assoc k2 data_key_to_property = Some (ch, t2) -> k1 = k2.
Proof.
  intros H1 H2. apply assoc_in in H1, H2.
  pose proof (nodup_map_inj _ _ _ _ data_key_channels_nodup H1 H2 eq_refl) as E.
  congruence.
Qed.

Lemma field_events_other c r ts sev ch :
  (forall k v t, In (k, v) r -> assoc k data_key_to_property <> Some (ch, t)) ->
  List.filter (quality_write_to ch) (field_events c r ts sev) = [] /\
  List.filter (value_write_to ch) (field_events c r ts sev) = [].
Proof.
  induction r as [|[k v] r IH]; cbn [field_events In]; intros Hno; [auto|].
  destruct IH as [IH1 IH2]; [intros k' v' t Hin; apply (Hno k' v' t); auto|].
  destruct (assoc k data_key_to_property) as [[ch' ty]|] eqn:Ek; [|auto].
  assert (Hne : String.eqb ch' ch = false).
  { apply String.eqb_neq. intros ->. apply (Hno k v ty); auto. }
  rewrite !List.filter_app, IH1, IH2, !app_nil_r.
  destruct (is_float v && default false (np_isnan v)); [simpl; rewrite Hne; auto|].
  destruct (c ty v); simpl; [rewrite Hne|]; auto.
Qed.

Lemma field_events_nan c r ts sev k ch ty :
  List.NoDup (map fst r) -> In (k, VNaN) r ->
  assoc k data_key_to_property = Some (ch, ty) ->
  List.filter (quality_write_to ch) (field_events c r ts sev) = [EWriteQuality ch ts] /\
  List.filter (value_write_to ch) (field_events c r ts sev) = [].
Proof.
  induction r as [|[k' v'] r IH]; cbn [field_events In map fst]; [tauto|].
  intros Hnd Hin Hk. apply List.NoDup_cons_iff in Hnd as [Hk' Hnd].
  destruct Hin as [[= -> ->]|Hin].
  - rewrite Hk. simpl. rewrite String.eqb_refl.
    destruct (field_events_other c r ts sev ch) as [E1 E2].
    { intros k2 v2 t Hin2 Ha. apply Hk'. rewrite <- (data_key_channel_inj _ _ _ _ _ Ha Hk).
      exact (in_map fst _ _ Hin2). }
    rewrite E1, E2. auto.
  - destruct (IH Hnd Hin Hk) as [IH1 IH2].
    destruct (assoc k' data_key_to_property) as [[ch' ty']|] eqn:Ek; [|auto].
    assert (Hne : String.eqb ch' ch = false).
    { apply String.eqb_neq. intros ->. apply Hk'.
      rewrite (data_key_channel_inj _ _ _ _ _ Ek Hk). exact (in_map fst _ _ Hin). }
    rewrite !List.filter_app, IH1, IH2.
    destruct (is_float v' && default false (np_isnan v')); [simpl; rewrite Hne; auto|].
    destruct (c ty' v'); simpl; [rewrite Hne|]; auto.
Qed.

Lemma catch_ret_never_raises {A} (m : M A) (a : A) s :
  snd (catchM m (retM a) s) <> Raise.
Proof. unfold catchM. destruct (m s) as [s1 [b|]]; discriminate. Qed.

Lemma bind_run {A C} (m : M A) (k : A -> M C) s :
  mbind k m s = match m s with (s1, Ret a) => k a s1 | (s1, Raise) => (s1, Raise) end.
Proof. reflexivity. Qed.

(** [_post_new_row] splits into the field loop and phases that write
    neither the value nor the quality of channel [ch]. *)
Lemma post_new_row_trace w c ts r s ch :
  exists d1 sev d2,
    trace (fst (post_new_row w c ts r s)) = trace s ++ d1 ++ field_events c r ts sev ++ d2 /\
    forallb (not_field_write ch) d1 = true /\ forallb (not_field_write ch) d2 = true.
Proof.
  unfold post_new_row.
  set (alarm := @catchM value _ _).
  assert (Ha : appends (not_field_write ch) alarm) by (subst alarm; appends_tac).
  assert (Hnr : forall s, snd (alarm s) <> Raise) by (intros; apply catch_ret_never_raises).
  clearbody alarm.
  rewrite (bind_run (log (ETranslate ts))).
  change (log (ETranslate ts) s) with (log_event (ETranslate ts) s, @Ret unit tt).
  cbv beta iota. rewrite bind_run.
  specialize (Hnr (log_event (ETranslate ts) s)).
  destruct (Ha (log_event (ETranslate ts) s)) as [da [Eda Fda]].
  destruct (alarm (log_event (ETranslate ts) s)) as [s2 [sm|]]; simpl in Hnr, Eda;
    [|contradiction].
  cbv beta zeta. set (sev := if truthy sm then MAJOR_ALARM else NO_ALARM).
  rewrite bind_run.
  destruct (post_fields_trace w c r ts sev None s2) as [Hfr Hft].
  destruct (post_fields w c r ts sev None s2) as [s3 [vv|]]; simpl in Hfr, Hft;
    [|contradiction].
  rewrite bind_run.
  match goal with |- context [match ?u s3 with _ => _ end] => set (units := u) end.
  set (period := @catchM unit _ _).
  assert (Hu : appends (not_field_write ch) units) by (subst units; appends_tac).
  assert (Hp : appends (not_field_write ch) period) by (subst period; appends_tac).
  clearbody units period.
  destruct (Hu s3) as [du [Edu Fdu]].
  exists (ETranslate ts :: da), sev.
  destruct (units s3) as [s4 [[]|]]; simpl in Edu.
  - destruct (Hp s4) as [dr [Edr Fdr]]. exists (du ++ dr).
    rewrite Edr, Edu, Hft, Eda. simpl. rewrite <- !app_assoc. split; [reflexivity|].
    rewrite Fda, forallb_app, Fdu, Fdr. auto.
  - exists du. simpl. rewrite Edu, Hft, Eda. simpl. rewrite <- !app_assoc. split; [reflexivity|].
    rewrite Fda, Fdu. auto.
Qed.

Lemma filter_not_field_write ch d :
  forallb (not_field_write ch) d = true ->
  List.filter (quality_write_to ch) d = [] /\ List.filter (value_write_to ch) d = [].
Proof.
  induction d as [|e d IH]; simpl; [auto|].
  unfold not_field_write at 1. intros H. apply andb_true_iff in H as [He Hd].
  apply negb_true_iff, orb_false_iff in He as [-> ->]. auto.
Qed.

(** C9: when a row (with distinct column names, as pandas gives them)
    holds NaN under a key of the field table mapped to channel [ch],
    [_post_new_row] attempts exactly one write to [ch]'s quality
    (status UDF, severity NO_ALARM, the row's timestamp) and no value
    write to [ch], whatever the writes' outcomes and the rest of the row. *)
Theorem post_new_row_nan_field (write_ok : event -> bool)
    (type_cast : ptype -> value -> option value) (ts : Z) (r : row)
    (k ch : string) (ty : ptype) (s : ioc) :
  List.NoDup (map fst r) -> In (k, VNaN) r ->
  assoc k data_key_to_property = Some (ch, ty) ->
  exists delta,
    trace (fst (post_new_row write_ok type_cast ts r s)) = trace s ++ delta /\
    List.filter (quality_write_to ch) delta = [EWriteQuality ch ts] /\
    List.filter (value_write_to ch) delta = [].
Proof.
  intros Hnd Hin Hk.
  destruct (post_new_row_trace write_ok type_cast ts r s ch) as [d1 [sev [d2 [E [F1 F2]]]]].
  destruct (filter_not_field_write ch d1 F1) as [Q1 V1].
  destruct (filter_not_field_write ch d2 F2) as [Q2 V2].
  destruct (field_events_nan type_cast r ts sev k ch ty Hnd Hin Hk) as [Q V].
  exists (d1 ++ field_events type_cast r ts sev ++ d2). split; [exact E|].
  rewrite !List.filter_app, Q1, V1, Q2, V2, Q, V. auto.
Qed.

Lemma post_new_row_nan_field_witness :
  exists delta,
    trace (fst (post_new_row (fun _ => true) (fun _ v => Some v) 1000000
      [("Sample Volume", VNaN); ("Cal Alarm", VInt 0); ("Sample Units", VStr "L")]
      (mkIoc "download" 5 0 0 (VInt 0) ∅ []))) = [] ++ delta /\
    List.filter (quality_write_to "sample_volume") delta =
      [EWriteQuality "sample_volume" 1000000] /\
    List.filter (value_write_to "sample_volume") delta = [].
Proof.
  apply (post_new_row_nan_field (fun _ => true) (fun _ v => Some v) 1000000
      [("Sample Volume", VNaN); ("Cal Alarm", VInt 0); ("Sample Units", VStr "L")]
      "Sample Volume" "sample_volume" TFloat (mkIoc "download" 5 0 0 (VInt 0) ∅ [])).
  - repeat constructor; simpl; intuition discriminate.
  - simpl. auto.
  - reflexivity.
Defined.

Lemma alarm_phase w r ts s :
  let alarm := catchM (summary ← lift_opt (summarize_alarms r);
                       emit w (EWriteOverallAlarm summary ts) ;; retM summary)
                      (retM (VInt 1)) in
  snd (alarm s) = Ret (alarm_result w r ts) /\
  trace (fst (alarm s)) = trace s ++ alarm_events r ts.
Proof.
  unfold alarm_result, alarm_events. cbv zeta.
  destruct (summarize_alarms r) as [m|]; simpl.
  - unfold catchM, mbind, M_bind, bindM. simpl. unfold emit.
    destruct (w (EWriteOverallAlarm m ts)); simpl; auto.
  - rewrite app_nil_r. auto.
Qed.

(** [_post_new_row]: the translator marker, the overall-alarm phase,
    the field loop at the phase's severity, then writes of other kinds. *)
Lemma post_new_row_shape w c ts r s :
  exists d2,
    trace (fst (post_new_row w c ts r s)) =
      trace s ++ ETranslate ts :: alarm_events r ts ++
      field_events c r ts (row_severity w r ts) ++ d2 /\
    forallb no_row_write d2 = true.
Proof.
  unfold post_new_row.
  set (alarm := @catchM value _ _).
  pose proof (alarm_phase w r ts (log_event (ETranslate ts) s)) as [Hr Ht].
  fold alarm in Hr, Ht. clearbody alarm.
  rewrite (bind_run (log (ETranslate ts))).
  change (log (ETranslate ts) s) with (log_event (ETranslate ts) s, @Ret unit tt).
  cbv beta iota. rewrite bind_run.
  destruct (alarm (log_event (ETranslate ts) s)) as [s2 o2]. simpl in Hr, Ht. subst o2.
  cbv beta zeta. fold (row_severity w r ts).
  rewrite bind_run.
  destruct (post_fields_trace w c r ts (row_severity w r ts) None s2) as [Hfr Hft].
  destruct (post_fields w c r ts (row_severity w r ts) None s2) as [s3 [vv|]];
    simpl in Hfr, Hft; [|contradiction].
  rewrite bind_run.
  match goal with |- context [match ?u s3 with _ => _ end] => set (units := u) end.
  set (period := @catchM unit _ _).
  assert (Hu : appends no_row_write units) by (subst units; appends_tac).
  assert (Hp : appends no_row_write period) by (subst period; appends_tac).
  clearbody units period.
  destruct (Hu s3) as [du [Edu Fdu]].
  destruct (units s3) as [s4 [[]|]]; simpl in Edu.
  - destruct (Hp s4) as [dr [Edr Fdr]]. exists (du ++ dr).
    rewrite Edr, Edu, Hft, Ht. simpl. rewrite <- !app_assoc. simpl. split; [reflexivity|].
    rewrite forallb_app, Fdu, Fdr. auto.
  - exists du. simpl. rewrite Edu, Hft, Ht. rewrite <- !app_assoc. simpl. auto.
Qed.

Lemma field_events_severity c r ts sev ch v t sev' :
  In (EWriteValue ch v t sev') (field_events c r ts sev) -> sev' = sev.
Proof.
  induction r as [|[k x] r IH]; cbn [field_events]; [contradiction|].
  destruct (assoc k data_key_to_property) as [[ch0 ty]|]; [|exact IH].
  intros Hin. apply in_app_iff in Hin as [Hin|Hin]; [|auto].
  destruct (is_float x && default false (np_isnan x)).
  - destruct Hin as [[=]|[]].
  - destruct (c ty x); [destruct Hin as [[= _ _ _ ->]|[]]|destruct Hin]; reflexivity.
Qed.

Lemma field_events_no_alarm c r ts sev v t :
  ~ In (EWriteOverallAlarm v t) (field_events c r ts sev).
Proof.
  induction r as [|[k x] r IH]; cbn [field_events]; [auto|].
  destruct (assoc k data_key_to_property) as [[ch0 ty]|]; [|exact IH].
  intros Hin. apply in_app_iff in Hin as [Hin|Hin]; [|auto].
  destruct (is_float x && default false (np_isnan x)); [|destruct (c ty x)];
    simpl in Hin; intuition discriminate.
Qed.

Lemma no_row_write_in d e :
  forallb no_row_write d = true -> In e d -> no_row_write e = true.
Proof. intros H Hin. rewrite forallb_forall in H. auto. Qed.

Lemma py_max_from_ints a zs :
  py_max_from (VInt a) (map VInt zs) = Some (VInt (fold_left Z.max zs a)).
Proof.
  revert a. induction zs as [|z zs IH]; intros a; simpl; [reflexivity|].
  destruct (Qle_bool (inject_Z z) (inject_Z a)) eqn:E; simpl.
  - apply Qle_bool_iff in E. rewrite <- Zle_Qle in E. rewrite IH. f_equal. f_equal. f_equal. lia.
  - assert (E' : ~ (z <= a)) by (intros Hle; rewrite Zle_Qle in Hle; apply Qle_bool_iff in Hle; congruence).
    rewrite IH. f_equal. f_equal. f_equal. lia.
Qed.

(** C7 (as amended): for a row whose seven alarm fields are integers
    [z0 :: zs], the row's first write is the overall alarm with their
    maximum [m], and every value write of the row carries MAJOR_ALARM
    exactly when [m] is non-zero or that overall-alarm write failed;
    when the summary cannot be computed (a missing alarm field, or
    values Python cannot compare), no overall-alarm write is attempted
    at all and every value write of the row carries MAJOR_ALARM. *)
Theorem post_new_row_overall_alarm (write_ok : event -> bool)
    (type_cast : ptype -> value -> option value) (ts : Z) (r : row) (s : ioc) :
  (forall z0 zs, get_all r ALARM_KEYS = Some (map VInt (z0 :: zs)) ->
     exists rest,
       trace (fst (post_new_row write_ok type_cast ts r s)) =
         trace s ++ ETranslate ts ::
           EWriteOverallAlarm (VInt (fold_left Z.max zs z0)) ts :: rest /\
       (forall v t, ~ In (EWriteOverallAlarm v t) rest) /\
       (forall ch v t sev, In (EWriteValue ch v t sev) rest ->
          (sev = MAJOR_ALARM <->
           fold_left Z.max zs z0 <> 0 \/
           write_ok (EWriteOverallAlarm (VInt (fold_left Z.max zs z0)) ts) = false))) /\
  (summarize_alarms r = None ->
     exists delta,
       trace (fst (post_new_row write_ok type_cast ts r s)) = trace s ++ ETranslate ts :: delta /\
       (forall v t, ~ In (EWriteOverallAlarm v t) delta) /\
       (forall ch v t sev, In (EWriteValue ch v t sev) delta -> sev = MAJOR_ALARM)).
Proof.
  destruct (post_new_row_shape write_ok type_cast ts r s) as [d2 [E F]].
  assert (Hno : forall v t, ~ In (EWriteOverallAlarm v t)
                  (field_events type_cast r ts (row_severity write_ok r ts) ++ d2)).
  { intros v t Hin. apply in_app_iff in Hin as [Hin|Hin].
    - exact (field_events_no_alarm _ _ _ _ _ _ Hin).
    - apply (no_row_write_in _ _ F) in Hin. discriminate. }
  assert (Hsev : forall ch v t sev,
            In (EWriteValue ch v t sev)
               (field_events type_cast r ts (row_severity write_ok r ts) ++ d2) ->
            sev = row_severity write_ok r ts).
  { intros ch v t sev Hin. apply in_app_iff in Hin as [Hin|Hin].
    - exact (field_events_severity _ _ _ _ _ _ _ _ Hin).
    - apply (no_row_write_in _ _ F) in Hin. discriminate. }
  split.
  - intros z0 zs Hg.
    assert (Hs : summarize_alarms r = Some (VInt (fold_left Z.max zs z0))).
    { unfold summarize_alarms. rewrite Hg. apply py_max_from_ints. }
    exists (field_events type_cast r ts (row_severity write_ok r ts) ++ d2).
    split; [rewrite E; unfold alarm_events; rewrite Hs; reflexivity|].
    split; [exact Hno|].
    intros ch v t sev Hin. rewrite (Hsev _ _ _ _ Hin).
    unfold row_severity, alarm_result. rewrite Hs.
    destruct (write_ok _); simpl.
    + destruct (Z.eqb_spec (fold_left Z.max zs z0) 0) as [H0|H0]; simpl.
      * split; [discriminate|intros [H|H]; [contradiction|discriminate]].
      * split; auto.
    + split; auto.
  - intros Hs.
    exists (alarm_events r ts ++ field_events type_cast r ts (row_severity write_ok r ts) ++ d2).
    unfold alarm_events in *. rewrite Hs in *. simpl.
    split; [exact E|]. split; [exact Hno|].
    intros ch v t sev Hin. rewrite (Hsev _ _ _ _ Hin).
    unfold row_severity, alarm_result. rewrite Hs. reflexivity.
Qed.

(** C7 as stated fails twice.  With all seven alarms at 0 but the
    overall-alarm write refused, the sample volume is still written with
    MAJOR_ALARM; with [Laser Alarm] missing, the overall-alarm PV keeps its
    previous 0 instead of showing 1, while the values carry MAJOR_ALARM. *)
Lemma post_new_row_alarm_counterexample :
  summarize_alarms
    [("Cal Alarm", VInt 0); ("Flow Alarm", VInt 0); ("Over Conc. Alarm", VInt 0);
     ("System Alarm", VInt 0); ("Count Alarm", VInt 0); ("Battery Alarm", VInt 0);
     ("Laser Alarm", VInt 0); ("Sample Volume", VFloat 1)] = Some (VInt 0) /\
  In (EWriteValue "sample_volume" (VFloat 1) 1000000 MAJOR_ALARM)
    (trace (fst (post_new_row
       (fun e => match e with EWriteOverallAlarm _ _ => false | _ => true end)
       (fun _ v => Some v) 1000000
       [("Cal Alarm", VInt 0); ("Flow Alarm", VInt 0); ("Over Conc. Alarm", VInt 0);
        ("System Alarm", VInt 0); ("Count Alarm", VInt 0); ("Battery Alarm", VInt 0);
        ("Laser Alarm", VInt 0); ("Sample Volume", VFloat 1)]
       (mkIoc "download" 5 0 0 (VInt 0) ∅ [])))) /\
  summarize_alarms
    [("Cal Alarm", VInt 0); ("Flow Alarm", VInt 0); ("Over Conc. Alarm", VInt 0);
     ("System Alarm", VInt 0); ("Count Alarm", VInt 0); ("Battery Alarm", VInt 0);
     ("Sample Volume", VFloat 1)] = None /\
  overall_alarm (fst (post_new_row (fun _ => true) (fun _ v => Some v) 1000000
       [("Cal Alarm", VInt 0); ("Flow Alarm", VInt 0); ("Over Conc. Alarm", VInt 0);
        ("System Alarm", VInt 0); ("Count Alarm", VInt 0); ("Battery Alarm", VInt 0);
        ("Sample Volume", VFloat 1)]
       (mkIoc "download" 5 0 0 (VInt 0) ∅ []))) = VInt 0 /\
  In (EWriteValue "sample_volume" (VFloat 1) 1000000 MAJOR_ALARM)
    (trace (fst (post_new_row (fun _ => true) (fun _ v => Some v) 1000000
       [("Cal Alarm", VInt 0); ("Flow Alarm", VInt 0); ("Over Conc. Alarm", VInt 0);
        ("System Alarm", VInt 0); ("Count Alarm", VInt 0); ("Battery Alarm", VInt 0);
        ("Sample Volume", VFloat 1)]
       (mkIoc "download" 5 0 0 (VInt 0) ∅ [])))).
Proof. vm_compute. intuition auto. Qed.

Lemma new_data_download_eqb : String.eqb "new_data" "download" = false.
Proof. reflexivity. Qed.

(** C6 (as amended): in a tick whose status page classifies as new data,
    the tick attempts [request_rebuild] exactly when the status writes it
    needs went through and the available-record count (the page's count
    when it has one, otherwise the PV's previous value) exceeds the
    synchronised count; the tick emits only status writes, the rebuild
    and the COMM alarms, so it never downloads; and when the page has no
    record count, the available-record PV is not written. *)
Theorem update_hook_new_data (write_ok : event -> bool)
    (type_cast : ptype -> value -> option value) (inp : tick_input) (s : ioc) (h : text)
    (info : state_info) :
  ti_html inp = Some h -> get_state_information h = Some info -> si_state info = "new_data" ->
  exists delta,
    trace (tick write_ok type_cast inp s) = trace s ++ delta /\
    forallb status_event delta = true /\
    (si_records info = None ->
       forall n, ~ In (EWriteAvailableRecords n) delta) /\
    (In ERequestRebuild delta <->
       (match si_records info with
        | Some n => n = available_records s \/ write_ok (EWriteAvailableRecords n) = true
        | None => True
        end) /\
       (server_state s = "new_data" \/ write_ok (EWriteServerState "new_data") = true) /\
       default (available_records s) (si_records info) > sync_records s).
Proof.
  intros Hh Hi. unfold tick, update_hook, update_server_state, should_download,
    new_records_available.
  rewrite Hh.
  cbv [catchM mbind M_bind bindM lift_opt getM retM emit]. cbv beta iota zeta.
  rewrite Hi. cbv beta iota.
  destruct info as [st rec]. cbn [si_state si_records].
  intros ->.
  destruct (String.eqb_spec "new_data" (server_state s)) as [Hss|Hss];
    [rewrite <- Hss|].
  all: repeat (cbv beta iota zeta;
          first
          [ progress rewrite ?String.eqb_refl, ?new_data_download_eqb
          | progress cbv [andb]
          | match goal with
            | H : "new_data" = server_state ?x |- context [server_state ?x] => rewrite <- H
            end
          | match goal with
            | |- context [match ?b with true => _ | false => _ end] =>
                destruct b eqn:?
            | |- context [match ?o with Some _ => _ | None => _ end] => destruct o
            end];
          cbv [apply_event log_event]; cbn [server_state available_records sync_records
            last_timestamp overall_alarm meta_pv trace]).
  all: repeat match goal with
         | H : String.eqb _ _ = true |- _ => apply String.eqb_eq in H
         | H : (_ =? _) = true |- _ => apply Z.eqb_eq in H
         | H : (_ =? _) = false |- _ => apply Z.eqb_neq in H
         | H : (_ >? _) = true |- _ => apply Z.gtb_lt in H
         | H : (_ >? _) = false |- _ => rewrite Z.gtb_ltb, Z.ltb_ge in H
         end.
  all: try (exfalso; congruence).
  all: try (eexists; split;
    [simpl; rewrite <- ?app_assoc; first [reflexivity | symmetry; apply app_nil_r]|]).
  all: try (split; [reflexivity|]).
  all: try (simpl; intuition (try discriminate; try congruence; try lia); fail).
Qed.

(** C6 as stated fails: from the IOC's initial values (both record counts
    0), a page with the new-data marker and no record count makes the
    tick write the server state and nothing else; no rebuild is issued. *)
Lemma update_hook_new_data_counterexample :
  get_state_information (txt "New data available.") = Some (mkStateInfo "new_data" None) /\
  trace (tick (fun _ => true) (fun _ v => Some v)
          {| ti_html := Some (txt "New data available."); ti_download := None; ti_now := 0 |}
          (mkIoc "unknown" 0 0 0 (VInt 0) ∅ [])) =
    [EWriteServerState "new_data"].
Proof. vm_compute. auto. Qed.

Lemma update_hook_new_data_witness :
  exists delta,
    trace (tick (fun _ => true) (fun _ v => Some v)
            {| ti_html := Some (txt "DATA.TSV left>12</td> New data available.");
               ti_download := None; ti_now := 0 |}
            (mkIoc "unknown" 0 0 0 (VInt 0) ∅ [])) = [] ++ delta /\
    forallb status_event delta = true /\
    (si_records (mkStateInfo "new_data" (Some 12)) = None ->
       forall n, ~ In (EWriteAvailableRecords n) delta) /\
    (In ERequestRebuild delta <->
       (match si_records (mkStateInfo "new_data" (Some 12)) with
        | Some n => n = 0 \/ (fun _ : event => true) (EWriteAvailableRecords n) = true
        | None => True
        end) /\
       ("unknown" = "new_data" \/ (fun _ : event => true) (EWriteServerState "new_data") = true) /\
       default 0 (si_records (mkStateInfo "new_data" (Some 12))) > 0).
Proof.
  apply (update_hook_new_data (fun _ => true) (fun _ v => Some v)
           {| ti_html := Some (txt "DATA.TSV left>12</td> New data available.");
              ti_download := None; ti_now := 0 |}
           (mkIoc "unknown" 0 0 0 (VInt 0) ∅ [])
           (txt "DATA.TSV left>12</td> New data available.")
           (mkStateInfo "new_data" (Some 12))).
  - reflexivity.
  - vm_compute. reflexivity.
  - reflexivity.
Defined.




(** Two ticks against the same device page and data file: the row with
    text units is handed to the translator on every tick, the COMM alarms
    fire every time, and the watermark never moves. *)
Lemma text_units_row_reprocessed :
  let inp := {| ti_html := Some (txt "DATA.TSV left>1</td> Click link above to download");
                ti_download := Some (∅, [(1000000000,
                  [("Sample Volume", VFloat 1); ("Sample Units", VStr "L")])]);
                ti_now := 0 |} in
  let s := run_ticks (fun _ => true) (fun _ v => Some v) [inp; inp]
             (mkIoc "unknown" 0 0 0 (VInt 0) ∅ []) in
  last_timestamp s = 0 /\ sync_records s = 0 /\
  trace s =
    [EWriteAvailableRecords 1; EWriteServerState "download";
     EWriteMeta "model_number" "unknown" 0; EWriteMeta "serial_number" "unknown" 0;
     EWriteMeta "firmware_version" "unknown" 0; EWriteMeta "hardware_version" "unknown" 0;
     EWriteMeta "bootloader_version" "unknown" 0;
     ETranslate 1000000000;
     EWriteValue "sample_volume" (VFloat 1) 1000000000 MAJOR_ALARM; ECommAlarm;
     ETranslate 1000000000;
     EWriteValue "sample_volume" (VFloat 1) 1000000000 MAJOR_ALARM; ECommAlarm].
Proof. vm_compute. auto. Qed.

(** * The watermark across a tick *)



Lemma update_server_state_preserves {B} (f : ioc -> B) w html :
  (forall e s, f (log_event e s) = f s) ->
  (forall n s, f (apply_event (EWriteAvailableRecords n) s) = f s) ->
  (forall st s, f (apply_event (EWriteServerState st) s) = f s) ->
  preserves f (update_server_state w html).
Proof. intros Hl Ha Hs. unfold update_server_state. cbv zeta. preserve_tac. Qed.









(** * The data file header, the sample period and the record count *)

Lemma lstrip_app_spaces (a t : text) :
  forallb is_space a = true -> lstrip (a ++ t) = lstrip t.
Proof.
  induction a as [|c a IH]; simpl; [auto|].
  intros H. apply andb_true_iff in H as [H1 H2]. rewrite H1. auto.
Qed.

Lemma lstrip_decomp (t : text) :
  exists a, t = a ++ lstrip t /\ forallb is_space a = true /\
    match lstrip t with [] => True | c :: _ => is_space c = false end.
Proof.
  induction t as [|c t IH]; simpl.
  - exists []. auto.
  - destruct (is_space c) eqn:Ec.
    + destruct IH as [a [E [F G]]]. exists (c :: a). simpl. rewrite Ec, <- E. auto.
    + exists []. simpl. rewrite Ec. auto.
Qed.

Lemma lstrip_nonspace (c : ascii) (t : text) :
  is_space c = false -> lstrip (c :: t) = c :: t.
Proof. simpl. intros ->. reflexivity. Qed.

Lemma lstrip_idem (t : text) : lstrip (lstrip t) = lstrip t.
Proof.
  destruct (lstrip_decomp t) as [a [_ [_ G]]].
  destruct (lstrip t) as [|c t']; [reflexivity|]. apply lstrip_nonspace, G.
Qed.

Lemma forallb_rev {A} (p : A -> bool) (l : list A) : forallb p (rev l) = forallb p l.
Proof.
  induction l as [|x l IH]; simpl; [auto|].
  rewrite forallb_app, IH. simpl. rewrite andb_true_r, andb_comm. reflexivity.
Qed.

(** [strip] removes the same characters whichever side goes first. *)
Lemma strip_comm (t : text) :
  lstrip (rev (lstrip (rev t))) = rev (lstrip (rev (lstrip t))).
Proof.
  destruct (lstrip_decomp t) as [a [Ea [Fa Ga]]].
  destruct (lstrip_decomp (rev (lstrip t))) as [b [Eb [Fb Gb]]].
  set (m := lstrip (rev (lstrip t))) in *.
  assert (Hlt : lstrip t = rev m ++ rev b).
  { rewrite <- (rev_involutive (lstrip t)), Eb, rev_app_distr. reflexivity. }
  assert (Et : rev t = b ++ m ++ rev a).
  { rewrite Ea, Hlt, !rev_app_distr, !rev_involutive, app_assoc. reflexivity. }
  rewrite Et, lstrip_app_spaces by exact Fb.
  destruct m as [|c m'] eqn:Em.
  - simpl app. rewrite <- (app_nil_r (rev a)), lstrip_app_spaces by (rewrite forallb_rev; exact Fa).
    reflexivity.
  - rewrite <- app_comm_cons, lstrip_nonspace by exact Gb.
    change (c :: m' ++ rev a) with ((c :: m') ++ rev a).
    rewrite rev_app_distr, rev_involutive, lstrip_app_spaces by exact Fa.
    rewrite Hlt in Ga.
    destruct (rev (c :: m')) as [|d u] eqn:Eu.
    + simpl in Eu. destruct (rev m'); discriminate.
    + rewrite lstrip_nonspace by exact Ga. reflexivity.
Qed.

Lemma lstrip_app_stripped (k w : text) : lstrip w = w -> lstrip (k ++ w) = lstrip k ++ w.
Proof.
  intros Hw. induction k as [|c k IH]; simpl; [exact Hw|].
  destruct (is_space c); [exact IH|reflexivity].
Qed.

Lemma lstrip_in (x : ascii) (t : text) : In x (lstrip t) -> In x t.
Proof.
  induction t as [|c t IH]; simpl; [auto|]. destruct (is_space c); simpl; auto.
Qed.

Lemma py_strip_in (x : ascii) (t : text) : In x (py_strip t) -> In x t.
Proof.
  unfold py_strip. intros H. apply in_rev in H. apply lstrip_in in H.
  apply in_rev in H. apply lstrip_in in H. exact H.
Qed.

Lemma py_strip_header (k v : text) :
  py_strip (k ++ ":"%char :: v ++ [newline]) = lstrip k ++ ":"%char :: rev (lstrip (rev v)).
Proof.
  unfold py_strip.
  rewrite lstrip_app_stripped by reflexivity.
  rewrite rev_app_distr. simpl rev at 1. rewrite rev_app_distr. simpl.
  rewrite <- app_assoc. simpl app.
  rewrite lstrip_app_stripped by reflexivity.
  rewrite rev_app_distr. simpl. rewrite rev_involutive, <- app_assoc. reflexivity.
Qed.

Lemma split_once_app (k r : text) :
  ~ In ":"%char k -> split_once (k ++ ":"%char :: r) = (k, r).
Proof.
  induction k as [|c k IH]; intros Hk; simpl; [reflexivity|].
  replace (Ascii.eqb c ":"%char) with false
    by (symmetry; apply Ascii.eqb_neq; intros ->; apply Hk; left; reflexivity).
  rewrite IH by (intros H; apply Hk; right; exact H). reflexivity.
Qed.

Lemma py_strip_lstrip (t : text) : py_strip (lstrip t) = py_strip t.
Proof. unfold py_strip. rewrite lstrip_idem. reflexivity. Qed.

Lemma py_strip_rstrip (t : text) : py_strip (rev (lstrip (rev t))) = py_strip t.
Proof.
  unfold py_strip. rewrite (strip_comm t), rev_involutive, lstrip_idem. reflexivity.
Qed.

Lemma contains_colon_false (t : text) : ~ In ":"%char t -> contains [":"%char] t = false.
Proof.
  intros H. apply contains_false. intros [a [b ->]]. apply H.
  apply in_or_app. right. left. reflexivity.
Qed.

Lemma readlines_line (l rest : text) :
  ~ In newline l -> readlines (l ++ newline :: rest) = (l ++ [newline]) :: readlines rest.
Proof.
  induction l as [|c l IH]; intros Hl; simpl.
  - reflexivity.
  - replace (Ascii.eqb c newline) with false
      by (symmetry; apply Ascii.eqb_neq; intros ->; apply Hl; left; reflexivity).
    rewrite IH by (intros H; apply Hl; right; exact H). reflexivity.
Qed.

Lemma readlines_last (l : text) : l <> [] -> ~ In newline l -> readlines l = [l].
Proof.
  induction l as [|c l IH]; intros Hne Hl; [congruence|]. simpl.
  replace (Ascii.eqb c newline) with false
    by (symmetry; apply Ascii.eqb_neq; intros ->; apply Hl; left; reflexivity).
  destruct l as [|c' l]; [reflexivity|].
  rewrite IH by (discriminate || (intros H; apply Hl; right; exact H)). reflexivity.
Qed.

Lemma get_metadata_lines_headers (kvs : list (text * text)) (ls : list text) n md :
  Forall (fun kv => ~ In ":"%char (fst kv) /\ ~ In newline (fst kv) /\ ~ In newline (snd kv)) kvs ->
  get_metadata_lines (map header_line kvs ++ ls) n md =
  get_metadata_lines ls (n + length kvs) (fold_left md_insert kvs md).
Proof.
  revert n md. induction kvs as [|[k v] kvs IH]; intros n md Hf.
  - simpl. rewrite Nat.add_0_r. reflexivity.
  - inversion Hf as [|? ? [Hk [Hkn Hvn]] Hf']; subst. simpl in Hk, Hkn, Hvn.
    cbn [map app get_metadata_lines]. unfold header_line. cbn [fst snd].
    rewrite py_strip_header.
    assert (Hc : contains [":"%char] (lstrip k ++ ":"%char :: rev (lstrip (rev v))) = true).
    { apply contains_spec. exists (lstrip k), (rev (lstrip (rev v))). reflexivity. }
    rewrite Hc. simpl negb. cbv iota.
    rewrite split_once_app by (intros H; apply Hk, lstrip_in, H).
    rewrite IH by exact Hf'. rewrite py_strip_lstrip, py_strip_rstrip.
    simpl. rewrite Nat.add_succ_r. reflexivity.
Qed.

Lemma readlines_headers (kvs : list (text * text)) (t : text) :
  Forall (fun kv => ~ In ":"%char (fst kv) /\ ~ In newline (fst kv) /\ ~ In newline (snd kv)) kvs ->
  readlines (concat (map header_line kvs) ++ t) = map header_line kvs ++ readlines t.
Proof.
  induction kvs as [|[k v] kvs IH]; intros Hf; [reflexivity|].
  inversion Hf as [|? ? [Hk [Hkn Hvn]] Hf']; subst. simpl in Hk, Hkn, Hvn.
  cbn [map concat]. unfold header_line at 1. cbn [fst snd].
  replace (((k ++ ":"%char :: v ++ [newline]) ++ concat (map header_line kvs)) ++ t)
    with ((k ++ ":"%char :: v) ++ newline :: (concat (map header_line kvs) ++ t))
    by (rewrite <- !app_assoc; simpl; rewrite <- !app_assoc; reflexivity).
  rewrite readlines_line.
  - rewrite IH by exact Hf'. unfold header_line. simpl. rewrite <- app_assoc. reflexivity.
  - intros H. apply in_app_or in H as [H|[H|H]]; [tauto|discriminate|tauto].
Qed.

Lemma digits_value_app (a : Z) (x y : text) :
  digits_value_acc a (x ++ y) = digits_value_acc (digits_value_acc a x) y.
Proof. revert a. induction x as [|c x IH]; intros a; simpl; auto. Qed.

Lemma dec_aux_acc (f n : nat) (acc : text) : dec_aux f n acc = dec_aux f n [] ++ acc.
Proof.
  revert n acc. induction f as [|f IH]; intros n acc; simpl; [reflexivity|].
  destruct (n <? 10)%nat; [reflexivity|].
  rewrite IH, (IH _ [_]), <- app_assoc. reflexivity.
Qed.

Lemma digit_char_ok (d : nat) : (d < 10)%nat ->
  is_digit (Ascii.ascii_of_nat (48 + d)) = true /\
  digit_val (Ascii.ascii_of_nat (48 + d)) = Z.of_nat d.
Proof.
  intros Hd. unfold is_digit, digit_val.
  rewrite Ascii.nat_ascii_embedding by lia.
  split; [apply andb_true_iff; split; apply Nat.leb_le; lia|lia].
Qed.

Lemma dec_aux_spec (f n : nat) : (n < f)%nat ->
  dec_aux f n [] <> [] /\ forallb is_digit (dec_aux f n []) = true /\
  digits_value_acc 0 (dec_aux f n []) = Z.of_nat n.
Proof.
  revert n. induction f as [|f IH]; intros n Hn; [lia|]. cbn [dec_aux].
  destruct (digit_char_ok (n mod 10)) as [Hd Hv]; [apply Nat.mod_upper_bound; lia|].
  destruct (n <? 10)%nat eqn:Hlt.
  - apply Nat.ltb_lt in Hlt. split; [discriminate|].
    cbn [forallb digits_value_acc]. rewrite Hd, Hv. split; [reflexivity|].
    rewrite Nat.mod_small by exact Hlt. lia.
  - apply Nat.ltb_ge in Hlt. rewrite dec_aux_acc.
    destruct (IH (n / 10)%nat) as [H1 [H2 H3]]; [apply Nat.lt_le_trans with n; [apply Nat.div_lt; lia|lia]|].
    split; [destruct (dec_aux f (n / 10) []); discriminate|].
    rewrite forallb_app, H2. cbn [forallb]. rewrite Hd. split; [reflexivity|].
    rewrite digits_value_app, H3. cbn [digits_value_acc]. rewrite Hv.
    rewrite (Nat.div_mod_eq n 10) at 3. lia.
Qed.

Lemma dec_spec (n : nat) :
  dec n <> [] /\ forallb is_digit (dec n) = true /\ digits_value_acc 0 (dec n) = Z.of_nat n.
Proof. apply dec_aux_spec. lia. Qed.

Lemma zeros_value (z : nat) (t : text) :
  digits_value_acc 0 (zeros z ++ t) = digits_value_acc 0 t.
Proof. induction z as [|z IH]; simpl; auto. Qed.

Lemma zeros_digits (z : nat) : forallb is_digit (zeros z) = true.
Proof. induction z as [|z IH]; simpl; auto. Qed.

Lemma int_lstrip_app_spaces (a t : text) :
  forallb int_space a = true -> int_lstrip (a ++ t) = int_lstrip t.
Proof.
  induction a as [|c a IH]; simpl; [auto|].
  intros H. apply andb_true_iff in H as [H1 H2]. rewrite H1. auto.
Qed.

Lemma digit_not_int_space (c : ascii) : is_digit c = true -> int_space c = false.
Proof.
  unfold is_digit, int_space. intros H. apply andb_true_iff in H as [H1 H2].
  apply Nat.leb_le in H1, H2.
  repeat rewrite orb_false_iff || rewrite andb_false_iff.
  repeat split; try (right; apply Nat.leb_gt; lia); try (left; apply Nat.leb_gt; lia);
    apply Nat.eqb_neq; lia.
Qed.

Lemma int_space_not_digit (c : ascii) : int_space c = true -> is_digit c = false.
Proof.
  intros H. destruct (is_digit c) eqn:E; [|reflexivity].
  rewrite (digit_not_int_space c E) in H. discriminate.
Qed.

Lemma eqb_not_digit (c d : ascii) : is_digit c = true -> is_digit d = false -> Ascii.eqb c d = false.
Proof.
  intros Hc Hd. apply Ascii.eqb_neq. intros ->. congruence.
Qed.

Lemma int_space_not_underscore (c : ascii) : int_space c = true -> Ascii.eqb c "_"%char = false.
Proof. intros H. apply Ascii.eqb_neq. intros ->. discriminate H. Qed.

Lemma scan_digits_app (ds b : text) :
  forallb is_digit ds = true -> forallb int_space b = true ->
  scan_digits false (ds ++ b) = Some (ds, false, b).
Proof.
  intros Hd Hb. induction ds as [|d ds IH].
  - destruct b as [|c b]; [reflexivity|]. simpl in Hb. apply andb_true_iff in Hb as [Hc _].
    simpl. rewrite (int_space_not_digit c Hc), (int_space_not_underscore c Hc). reflexivity.
  - simpl in Hd. apply andb_true_iff in Hd as [H1 H2].
    simpl. rewrite H1, IH by exact H2. reflexivity.
Qed.

(** [int] on decimal digits surrounded by whitespace: their value, or
    [ValueError] past [int_max_str_digits] digits. *)
Lemma parse_int_padded (a ds b : text) :
  forallb int_space a = true -> forallb int_space b = true ->
  ds <> [] -> forallb is_digit ds = true ->
  parse_int (a ++ ds ++ b) =
  if (length ds <=? int_max_str_digits)%nat then Some (digits_value_acc 0 ds) else None.
Proof.
  intros Ha Hb Hne Hd. unfold parse_int.
  rewrite int_lstrip_app_spaces by exact Ha.
  destruct ds as [|c ds']; [congruence|].
  pose proof Hd as Hd'. simpl in Hd'. apply andb_true_iff in Hd' as [Hc _].
  cbn [app int_lstrip]. rewrite (digit_not_int_space c Hc).
  rewrite (eqb_not_digit c "-"%char Hc eq_refl), (eqb_not_digit c "+"%char Hc eq_refl).
  cbv beta iota zeta.
  rewrite (eqb_not_digit c "_"%char Hc eq_refl).
  replace (scan_digits false (c :: ds' ++ b)) with (Some (c :: ds', false, b))
    by (symmetry; exact (scan_digits_app (c :: ds') b Hd Hb)).
  cbv beta iota.
  destruct (Nat.leb_spec (length (c :: ds')) int_max_str_digits) as [L|L].
  - replace (int_max_str_digits <? length (c :: ds'))%nat with false
      by (symmetry; apply Nat.ltb_ge; exact L).
    rewrite Hb. f_equal. lia.
  - replace (int_max_str_digits <? length (c :: ds'))%nat with true
      by (symmetry; apply Nat.ltb_lt; exact L).
    reflexivity.
Qed.

Lemma digits_no_colon (t : text) : forallb is_digit t = true -> ~ In ":"%char t.
Proof.
  intros H Hin. rewrite forallb_forall in H. specialize (H _ Hin). discriminate.
Qed.

Lemma split_colon_none (a : text) : ~ In ":"%char a -> split_colon a = [a].
Proof.
  induction a as [|c a IH]; intros Ha; [reflexivity|]. simpl.
  replace (Ascii.eqb c ":"%char) with false
    by (symmetry; apply Ascii.eqb_neq; intros ->; apply Ha; left; reflexivity).
  rewrite IH by (intros H; apply Ha; right; exact H). reflexivity.
Qed.

Lemma split_colon_app (a t : text) :
  ~ In ":"%char a -> split_colon (a ++ ":"%char :: t) = a :: split_colon t.
Proof.
  induction a as [|c a IH]; intros Ha; [reflexivity|]. simpl.
  replace (Ascii.eqb c ":"%char) with false
    by (symmetry; apply Ascii.eqb_neq; intros ->; apply Ha; left; reflexivity).
  rewrite IH by (intros H; apply Ha; right; exact H). reflexivity.
Qed.

Lemma padded_field (z n : nat) :
  zeros z ++ dec n <> [] /\ forallb is_digit (zeros z ++ dec n) = true /\
  digits_value_acc 0 (zeros z ++ dec n) = Z.of_nat n /\
  length (zeros z ++ dec n) = (z + length (dec n))%nat.
Proof.
  destruct (dec_spec n) as [H1 [H2 H3]].
  split; [destruct (dec n); [congruence|]; destruct (zeros z); discriminate|].
  rewrite forallb_app, zeros_digits, H2. split; [reflexivity|].
  rewrite zeros_value. split; [exact H3|].
  unfold zeros. rewrite length_app, repeat_length. reflexivity.
Qed.

Lemma int_field_no_colon (a b : text) (z n : nat) :
  forallb int_space a = true -> forallb int_space b = true ->
  ~ In ":"%char (int_field a z n b).
Proof.
  intros Ha Hb H. destruct (padded_field z n) as [_ [Hd _]].
  unfold int_field in H.
  replace (a ++ zeros z ++ dec n ++ b) with (a ++ (zeros z ++ dec n) ++ b) in H
    by (rewrite <- !app_assoc; reflexivity).
  apply in_app_or in H as [H|H]; [|apply in_app_or in H as [H|H]].
  - rewrite forallb_forall in Ha. specialize (Ha _ H). discriminate Ha.
  - rewrite forallb_forall in Hd. specialize (Hd _ H). discriminate Hd.
  - rewrite forallb_forall in Hb. specialize (Hb _ H). discriminate Hb.
Qed.

Lemma parse_int_field (a b : text) (z n : nat) :
  forallb int_space a = true -> forallb int_space b = true ->
  parse_int (int_field a z n b) =
  if (z + length (dec n) <=? int_max_str_digits)%nat then Some (Z.of_nat n) else None.
Proof.
  intros Ha Hb. destruct (padded_field z n) as [H1 [H2 [H3 H4]]].
  unfold int_field.
  replace (a ++ zeros z ++ dec n ++ b) with (a ++ (zeros z ++ dec n) ++ b)
    by (rewrite <- !app_assoc; reflexivity).
  rewrite parse_int_padded by assumption.
  rewrite H4, H3. reflexivity.
Qed.

Lemma split_colon_count (t : text) :
  length (split_colon t) = S (count_occ Ascii.ascii_dec t ":"%char).
Proof.
  induction t as [|c t IH]; [reflexivity|]. simpl.
  destruct (Ascii.ascii_dec c ":"%char) as [->|Hne].
  - simpl. rewrite IH. reflexivity.
  - replace (Ascii.eqb c ":"%char) with false by (symmetry; apply Ascii.eqb_neq; exact Hne).
    destruct (split_colon t) as [|p ps]; simpl in *; lia.
Qed.

Lemma prefixb_app_long (p a b : text) :
  (length p <= length a)%nat -> prefixb p (a ++ b) = prefixb p a.
Proof.
  revert a. induction p as [|x p IH]; intros a Hl; [reflexivity|].
  destruct a as [|y a]; simpl in Hl; [lia|]. simpl. rewrite IH by lia. reflexivity.
Qed.

(** [_get_metadata] reads a header of [key:value] lines back.  For
    header lines [k:v] (no colon in [k], no newline in [k] or [v]; [v]
    may contain colons) followed by a line without a colon or by the end
    of the file, the result is the 1-based number of that line together
    with the dictionary mapping each stripped key to its stripped value,
    filled in file order, so that a repeated key keeps its last value. *)
Theorem get_metadata_header (kvs : list (text * text)) (sep rest : text) :
  Forall header_ok kvs ->
  ~ In ":"%char sep -> ~ In newline sep ->
  (rest = [] \/ exists r, rest = newline :: r) ->
  get_metadata (concat (map header_line kvs) ++ sep ++ rest) =
  (S (length kvs), fold_left md_insert kvs ∅).
Proof.
  intros Hf Hc Hn Hr. unfold get_metadata.
  rewrite readlines_headers by exact Hf.
  rewrite get_metadata_lines_headers by exact Hf.
  destruct Hr as [->|[r ->]].
  - rewrite app_nil_r. destruct sep as [|c sep'].
    + reflexivity.
    + rewrite readlines_last by (discriminate || exact Hn).
      cbn [get_metadata_lines].
      rewrite contains_colon_false by (intros H; apply Hc, py_strip_in, H). reflexivity.
  - rewrite readlines_line by exact Hn. cbn [get_metadata_lines].
    rewrite contains_colon_false; [reflexivity|].
    intros H. apply py_strip_in, in_app_or in H as [H|[H|[]]]; [tauto|discriminate].
Qed.

Lemma get_metadata_header_witness :
  Forall header_ok [(txt "Model Number", txt " 985"); (txt "Start", txt " 10:00:00");
                    (txt "Model Number", txt " 986")] /\
  ~ In ":"%char [] /\ ~ In newline (@nil ascii) /\
  ([newline] = [] \/ exists r, [newline] = newline :: r) /\
  get_metadata (concat (map header_line
      [(txt "Model Number", txt " 985"); (txt "Start", txt " 10:00:00");
       (txt "Model Number", txt " 986")]) ++ [] ++ [newline]) =
  (S (length [(txt "Model Number", txt " 985"); (txt "Start", txt " 10:00:00");
              (txt "Model Number", txt " 986")]),
   fold_left md_insert [(txt "Model Number", txt " 985"); (txt "Start", txt " 10:00:00");
                        (txt "Model Number", txt " 986")] ∅).
Proof.
  assert (Hf : Forall header_ok [(txt "Model Number", txt " 985"); (txt "Start", txt " 10:00:00");
                    (txt "Model Number", txt " 986")]).
  { repeat constructor; unfold header_ok; simpl;
      intros H; repeat destruct H as [H|H]; try discriminate; contradiction. }
  assert (Hr : [newline] = [] \/ exists r, [newline] = newline :: r) by (right; exists []; reflexivity).
  split; [exact Hf|]. split; [intros []|]. split; [intros []|]. split; [exact Hr|].
  apply get_metadata_header; [exact Hf|intros []|intros []|exact Hr].
Defined.

(** [sample_period_to_seconds] on [h:m:s] written with decimal digits,
    each field possibly zero-padded and surrounded by whitespace: the
    result is [3600 h + 60 m + s] when every field has at most
    [int_max_str_digits] digits, and [int] raises [ValueError] otherwise.
    The fields are not range-checked ([00:75:00] is 4500 seconds). *)
Theorem sample_period_to_seconds_hms (a1 b1 a2 b2 a3 b3 : text) (z1 z2 z3 h m s : nat) :
  forallb int_space (a1 ++ b1 ++ a2 ++ b2 ++ a3 ++ b3) = true ->
  sample_period_to_seconds
    (VStr (string_of_list_ascii
       (int_field a1 z1 h b1 ++ ":"%char :: int_field a2 z2 m b2 ++ ":"%char :: int_field a3 z3 s b3))) =
  if (z1 + length (dec h) <=? int_max_str_digits)%nat
     && (z2 + length (dec m) <=? int_max_str_digits)%nat
     && (z3 + length (dec s) <=? int_max_str_digits)%nat
  then Some (3600 * Z.of_nat h + 60 * Z.of_nat m + Z.of_nat s)
  else None.
Proof.
  intros Hs. rewrite !forallb_app in Hs.
  repeat (apply andb_true_iff in Hs as [? Hs]).
  unfold sample_period_to_seconds, txt. rewrite list_ascii_of_string_of_list_ascii.
  rewrite split_colon_app by (apply int_field_no_colon; assumption).
  rewrite split_colon_app by (apply int_field_no_colon; assumption).
  rewrite split_colon_none by (apply int_field_no_colon; assumption).
  rewrite !parse_int_field by assumption.
  destruct (z1 + length (dec h) <=? int_max_str_digits)%nat,
    (z2 + length (dec m) <=? int_max_str_digits)%nat,
    (z3 + length (dec s) <=? int_max_str_digits)%nat; reflexivity.
Qed.

Lemma sample_period_to_seconds_hms_witness :
  forallb int_space (txt " " ++ [] ++ [] ++ [] ++ [] ++ txt " ") = true /\
  sample_period_to_seconds
    (VStr (string_of_list_ascii
       (int_field (txt " ") 0 1 [] ++ ":"%char :: int_field [] 1 2 [] ++ ":"%char ::
        int_field [] 0 75 (txt " ")))) =
  if (0 + length (dec 1) <=? int_max_str_digits)%nat
     && (1 + length (dec 2) <=? int_max_str_digits)%nat
     && (0 + length (dec 75) <=? int_max_str_digits)%nat
  then Some (3600 * Z.of_nat 1 + 60 * Z.of_nat 2 + Z.of_nat 75)
  else None.
Proof.
  assert (H : forallb int_space (txt " " ++ [] ++ [] ++ [] ++ [] ++ txt " ") = true)
    by reflexivity.
  split; [exact H|]. exact (sample_period_to_seconds_hms _ _ _ _ _ _ 0 1 0 1 2 75 H).
Defined.

(** [sample_period_to_seconds] succeeds only on a text cell with
    exactly two colons: any other count fails the three-way unpacking
    of [split(':')], and a cell that is not text has no [split]. *)
Theorem sample_period_to_seconds_two_colons (v : value) (n : Z) :
  sample_period_to_seconds v = Some n ->
  exists s, v = VStr s /\ count_occ Ascii.ascii_dec (txt s) ":"%char = 2%nat.
Proof.
  destruct v as [| | |s]; simpl; try discriminate.
  intros H. exists s. split; [reflexivity|].
  pose proof (split_colon_count (txt s)) as Hc.
  destruct (split_colon (txt s)) as [|a [|b [|c [|d l]]]]; try discriminate.
  simpl in Hc. lia.
Qed.

Lemma sample_period_to_seconds_two_colons_witness :
  sample_period_to_seconds (VStr "00:01:30") = Some 90 /\
  exists s, VStr "00:01:30" = VStr s /\ count_occ Ascii.ascii_dec (txt s) ":"%char = 2%nat.
Proof.
  split; [vm_compute; reflexivity|].
  apply (sample_period_to_seconds_two_colons (VStr "00:01:30") 90). vm_compute. reflexivity.
Defined.

Lemma re_search_skip (pre t : text) :
  contains (txt "DATA.TSV") (pre ++ txt "DATA.TS") = false ->
  re_search (pre ++ txt "DATA.TSV" ++ t) = re_search (txt "DATA.TSV" ++ t).
Proof.
  induction pre as [|x pre IH]; intros H; [reflexivity|].
  cbn [app] in H |- *. cbn [contains] in H. apply orb_false_iff in H as [H1 H2].
  cbn [re_search]. unfold match_at at 1.
  replace (prefixb (txt "DATA.TSV") (x :: pre ++ txt "DATA.TSV" ++ t)) with false.
  - apply IH, H2.
  - change (txt "DATA.TSV" ++ t) with (txt "DATA.TS" ++ "V"%char :: t).
    rewrite app_assoc, app_comm_cons, prefixb_app_long; [symmetry; exact H1|].
    simpl. rewrite length_app. simpl. lia.
Qed.

Lemma match_lazy_skip (mid t : text) :
  contains (txt "left>") (mid ++ txt "left") = false -> ~ In newline mid ->
  match_lazy (mid ++ txt "left>" ++ t) = match_lazy (txt "left>" ++ t).
Proof.
  induction mid as [|x mid IH]; intros H Hn; [reflexivity|].
  cbn [app] in H |- *. cbn [contains] in H. apply orb_false_iff in H as [H1 H2].
  cbn [match_lazy]. unfold match_tail at 1.
  replace (prefixb (txt "left>") (x :: mid ++ txt "left>" ++ t)) with false.
  - replace (Ascii.eqb x newline) with false
      by (symmetry; apply Ascii.eqb_neq; intros ->; apply Hn; left; reflexivity).
    apply IH; [exact H2|intros Hi; apply Hn; right; exact Hi].
  - change (txt "left>" ++ t) with (txt "left" ++ ">"%char :: t).
    rewrite app_assoc, app_comm_cons, prefixb_app_long; [symmetry; exact H1|].
    simpl. rewrite length_app. simpl. lia.
Qed.

(** The record count [get_state_information] reads from a page where
    the first [DATA.TSV] is followed, on the same line, by a first
    [left>] and the decimal digits of [n], possibly zero-padded, closed
    by [</td>]: it is [n] when those digits are at most
    [int_max_str_digits], and [int(records)] raises [ValueError]
    otherwise. *)
Theorem get_state_information_records (pre mid post : text) (z n : nat) :
  contains (txt "DATA.TSV") (pre ++ txt "DATA.TS") = false ->
  contains (txt "left>") (mid ++ txt "left") = false ->
  ~ In newline mid ->
  option_map si_records (get_state_information
    (pre ++ txt "DATA.TSV" ++ mid ++ txt "left>" ++ zeros z ++ dec n ++ txt "</td>" ++ post)) =
  if (z + length (dec n) <=? int_max_str_digits)%nat then Some (Some (Z.of_nat n)) else None.
Proof.
  intros Hpre Hmid Hn. destruct (padded_field z n) as [Hne [Hd [Hv Hl]]].
  set (ds := zeros z ++ dec n) in *.
  assert (Hre : re_search
      (pre ++ txt "DATA.TSV" ++ mid ++ txt "left>" ++ ds ++ txt "</td>" ++ post) = Some ds).
  { rewrite re_search_skip by exact Hpre.
    change (txt "DATA.TSV" ++ mid ++ txt "left>" ++ ds ++ txt "</td>" ++ post)
      with ("D"%char :: txt "ATA.TSV" ++ mid ++ txt "left>" ++ ds ++ txt "</td>" ++ post).
    cbn [re_search]. unfold match_at at 1.
    rewrite (proj2 (prefixb_spec _ _)) by (exists (mid ++ txt "left>" ++ ds ++ txt "</td>" ++ post); reflexivity).
    change (skipn 8 ("D"%char :: txt "ATA.TSV" ++ ?r)) with r.
    rewrite match_lazy_skip by assumption.
    change (txt "left>" ++ ds ++ txt "</td>" ++ post)
      with ("l"%char :: txt "eft>" ++ ds ++ "<"%char :: "/"%char :: txt "td>" ++ post).
    cbn [match_lazy].
    change ("l"%char :: txt "eft>" ++ ds ++ "<"%char :: "/"%char :: txt "td>" ++ post)
      with (txt "left>" ++ ds ++ "<"%char :: "/"%char :: txt "td>" ++ post).
    assert (Hdf : Forall (fun c => is_digit c = true) ds).
    { apply List.Forall_forall. intros c Hc. rewrite forallb_forall in Hd. apply Hd, Hc. }
    rewrite (match_tail_complete ds [] post "/"%char Hne Hdf) by discriminate.
    reflexivity. }
  assert (Hre' : re_search
      (pre ++ txt "DATA.TSV" ++ mid ++ txt "left>" ++ zeros z ++ dec n ++ txt "</td>" ++ post) = Some ds)
    by (rewrite <- Hre; unfold ds; rewrite <- !app_assoc; reflexivity).
  unfold get_state_information. rewrite Hre'. unfold py_int_digits. rewrite Hl, Hv.
  destruct (z + length (dec n) <=? int_max_str_digits)%nat; reflexivity.
Qed.

Lemma get_state_information_records_witness :
  contains (txt "DATA.TSV") (txt "<a>" ++ txt "DATA.TS") = false /\
  contains (txt "left>") (txt "</a><td align=" ++ txt "left") = false /\
  ~ In newline (txt "</a><td align=") /\
  option_map si_records (get_state_information
    (txt "<a>" ++ txt "DATA.TSV" ++ txt "</a><td align=" ++ txt "left>" ++ zeros 2 ++ dec 1234 ++
     txt "</td>" ++ txt "</tr>")) =
  if (2 + length (dec 1234) <=? int_max_str_digits)%nat then Some (Some (Z.of_nat 1234)) else None.
Proof.
  assert (H1 : contains (txt "DATA.TSV") (txt "<a>" ++ txt "DATA.TS") = false) by reflexivity.
  assert (H2 : contains (txt "left>") (txt "</a><td align=" ++ txt "left") = false) by reflexivity.
  assert (H3 : ~ In newline (txt "</a><td align=")).
  { simpl. intros H; repeat destruct H as [H|H]; try discriminate; contradiction. }
  split; [exact H1|]. split; [exact H2|]. split; [exact H3|].
  apply (get_state_information_records _ _ _ 2 1234); assumption.
Defined.

(** * Status ticks, metadata passes and the row order *)

Lemma update_server_state_ok w h s s1 :
  update_server_state w (Some h) s = (s1, Ret tt) ->
  exists info, get_state_information h = Some info /\
  server_state s1 = si_state info /\
  (forall n, si_records info = Some n -> available_records s1 = n).
Proof.
  unfold update_server_state. cbn [lift_opt].
  cbv [mbind M_bind bindM retM getM]. cbv beta iota zeta.
  destruct (get_state_information h) as [info|]; cbv [lift_opt raise retM]; cbv beta iota;
    [|discriminate].
  intros Hrun. exists info. split; [reflexivity|]. revert Hrun.
  destruct (si_records info) as [n|] eqn:Er;
    [destruct (n =? available_records s) eqn:E1|].
  all: cbv beta iota.
  all: repeat match goal with
         | |- context [emit ?w ?e ?s] =>
             let E := fresh "Ew" in
             unfold emit at 1; destruct (w e) eqn:E; cbv beta iota zeta
         | |- context [if String.eqb ?a ?b then _ else _] =>
             let E := fresh "Es" in destruct (String.eqb_spec a b) as [E|E]; cbv beta iota
         | |- context [if ?b then _ else _] =>
             let E := fresh "Eb" in destruct b eqn:E; cbv beta iota
       end.
  all: try (intros H; discriminate H).
  all: intros H; injection H as <-.
  all: cbv [apply_event log_event] in *;
       cbn [server_state available_records sync_records last_timestamp overall_alarm meta_pv trace] in *.
  all: repeat match goal with H : String.eqb _ _ = true |- _ => apply String.eqb_eq in H end.
  all: repeat match goal with H : Z.eqb _ _ = true |- _ => apply Z.eqb_eq in H end.
  all: split; [first [congruence|reflexivity]|].
  all: intros n' Hn'; first [discriminate Hn'|injection Hn' as <-]; congruence.
Qed.

(** [_update_server_state] is idempotent on a status page: once a pass
    over a page has completed, a second pass over the same page writes
    neither [available_records] nor [server_state]; its only possible
    effect is to send the rebuild request again. *)
Theorem update_server_state_idempotent (write_ok : event -> bool) (h : text) (s s1 : ioc) :
  update_server_state write_ok (Some h) s = (s1, Ret tt) ->
  update_server_state write_ok (Some h) s1 = retM tt s1 \/
  update_server_state write_ok (Some h) s1 = emit write_ok ERequestRebuild s1.
Proof.
  intros H. destruct (update_server_state_ok _ _ _ _ H) as [info [Hi [Hst Hav]]].
  unfold update_server_state. cbn [lift_opt].
  cbv [mbind M_bind bindM retM getM]. cbv beta iota zeta.
  rewrite Hi. cbv [lift_opt retM]. cbv beta iota.
  destruct (si_records info) as [n|] eqn:Er.
  - rewrite (Hav n eq_refl), Z.eqb_refl. cbv beta iota.
    rewrite Hst, String.eqb_refl. cbv beta iota.
    destruct (_ && _); [right|left]; reflexivity.
  - cbv beta iota. rewrite Hst, String.eqb_refl. cbv beta iota.
    destruct (_ && _); [right|left]; reflexivity.
Qed.

Lemma update_server_state_idempotent_witness :
  update_server_state (fun _ => true) (Some page_new_data) ioc0 =
    (fst (update_server_state (fun _ => true) (Some page_new_data) ioc0), Ret tt) /\
  (update_server_state (fun _ => true) (Some page_new_data)
     (fst (update_server_state (fun _ => true) (Some page_new_data) ioc0)) =
   retM tt (fst (update_server_state (fun _ => true) (Some page_new_data) ioc0)) \/
   update_server_state (fun _ => true) (Some page_new_data)
     (fst (update_server_state (fun _ => true) (Some page_new_data) ioc0)) =
   emit (fun _ => true) ERequestRebuild
     (fst (update_server_state (fun _ => true) (Some page_new_data) ioc0))).
Proof.
  assert (H : update_server_state (fun _ => true) (Some page_new_data) ioc0 =
    (fst (update_server_state (fun _ => true) (Some page_new_data) ioc0), Ret tt))
    by (vm_compute; reflexivity).
  split; [exact H|]. exact (update_server_state_idempotent _ _ _ _ H).
Defined.

(** A tick whose status request fails (an exception or a timeout of
    [check_state]) changes no process variable and downloads nothing: it
    only raises the COMM alarms. *)
Theorem update_hook_status_failure (write_ok : event -> bool)
    (type_cast : ptype -> value -> option value) dl now (s : ioc) :
  tick write_ok type_cast (mkTick None dl now) s = log_event ECommAlarm s.
Proof.
  unfold tick, update_hook, catchM. cbn.
  unfold emit. destruct (write_ok ECommAlarm); reflexivity.
Qed.

Lemma update_server_state_status_events w html :
  appends status_event (update_server_state w html).
Proof. unfold update_server_state. cbv zeta. appends_tac. Qed.

Lemma update_server_state_pv_data w html : preserves pv_data (update_server_state w html).
Proof. apply update_server_state_preserves; intros; reflexivity. Qed.

(** The tick, when nothing after the status update can run. *)
Lemma tick_status_only w c inp s :
  (forall s1, update_server_state w (ti_html inp) s = (s1, Ret tt) ->
     should_download s1 = false \/ ti_download inp = None) ->
  (exists delta, trace (tick w c inp s) = trace s ++ delta /\ forallb status_event delta = true) /\
  pv_data (tick w c inp s) = pv_data s.
Proof.
  intros Hd. unfold tick, update_hook, catchM. rewrite bind_run.
  destruct (update_server_state_status_events w (ti_html inp) s) as [d [Ed Fd]].
  pose proof (update_server_state_pv_data w (ti_html inp) s) as Hp.
  destruct (update_server_state w (ti_html inp) s) as [s1 [[]|]] eqn:Hu; simpl in Ed, Hp.
  - rewrite bind_run. cbv [getM]. cbv beta iota.
    destruct (Hd s1 eq_refl) as [Hs|Hn].
    + rewrite Hs. simpl. split; [exists d; auto|exact Hp].
    + destruct (should_download s1).
      * assert (Hdl : download_and_update w c (ti_download inp) (ti_now inp) s1 = (s1, Raise))
          by (rewrite Hn; reflexivity).
        rewrite Hdl. cbv beta iota.
        pose proof (emit_trace w ECommAlarm s1) as Ht.
        split.
        -- exists (d ++ [ECommAlarm]). rewrite Ht, Ed, app_assoc.
           split; [reflexivity|]. rewrite forallb_app, Fd. reflexivity.
        -- rewrite <- Hp. unfold emit. destruct (w ECommAlarm); reflexivity.
      * simpl. split; [exists d; auto|exact Hp].
  - cbv beta iota. pose proof (emit_trace w ECommAlarm s1) as Ht. split.
    + exists (d ++ [ECommAlarm]). rewrite Ht, Ed, app_assoc.
      split; [reflexivity|]. rewrite forallb_app, Fd. reflexivity.
    + rewrite <- Hp. unfold emit. destruct (w ECommAlarm); reflexivity.
Qed.

(** A tick whose status page does not read as the ready-to-download
    page (including a page whose reading raises) never downloads: it
    emits only the status writes, the rebuild request and
    the COMM alarms, and leaves the watermark, the synchronised count,
    the overall alarm and the metadata channels unchanged. *)
Theorem update_hook_not_download_page (write_ok : event -> bool)
    (type_cast : ptype -> value -> option value) (inp : tick_input) (h : text) (s : ioc) :
  ti_html inp = Some h ->
  (forall info, get_state_information h = Some info -> si_state info <> "download") ->
  (exists delta, trace (tick write_ok type_cast inp s) = trace s ++ delta /\
                 forallb status_event delta = true) /\
  pv_data (tick write_ok type_cast inp s) = pv_data s.
Proof.
  intros Hh Hst. apply tick_status_only. intros s1 Hu. left.
  rewrite Hh in Hu. destruct (update_server_state_ok _ _ _ _ Hu) as [info [Hi [Hs _]]].
  unfold should_download. rewrite Hs.
  destruct (String.eqb_spec (si_state info) "download") as [E|E];
    [exfalso; exact (Hst info Hi E)|reflexivity].
Qed.

Lemma update_hook_not_download_page_witness :
  ti_html (mkTick (Some page_new_data) None 0) = Some page_new_data /\
  (forall info, get_state_information page_new_data = Some info ->
     si_state info <> "download") /\
  (exists delta, trace (tick (fun _ => true) (fun _ v => Some v) (mkTick (Some page_new_data) None 0) ioc0) =
                 trace ioc0 ++ delta /\ forallb status_event delta = true) /\
  pv_data (tick (fun _ => true) (fun _ v => Some v) (mkTick (Some page_new_data) None 0) ioc0) =
  pv_data ioc0.
Proof.
  assert (H2 : forall info, get_state_information page_new_data = Some info ->
     si_state info <> "download")
    by (intros info Hi; vm_compute in Hi; injection Hi as <-; vm_compute; discriminate).
  split; [reflexivity|]. split; [exact H2|].
  apply (update_hook_not_download_page _ _ _ page_new_data); [reflexivity|exact H2].
Defined.

(** A tick whose download of the data file fails (an exception or a
    timeout of the request, or a file that does not parse) changes
    neither the watermark, the synchronised count, the overall alarm nor
    the metadata channels; the tick emits only status writes, the
    rebuild request and the COMM alarms, so the next tick retries. *)
Theorem update_hook_download_failed (write_ok : event -> bool)
    (type_cast : ptype -> value -> option value) (inp : tick_input) (s : ioc) :
  ti_download inp = None ->
  (exists delta, trace (tick write_ok type_cast inp s) = trace s ++ delta /\
                 forallb status_event delta = true) /\
  pv_data (tick write_ok type_cast inp s) = pv_data s.
Proof. intros Hn. apply tick_status_only. intros s1 _. right. exact Hn. Qed.

Lemma update_hook_download_failed_witness :
  ti_download (mkTick (Some page_download) None 0) = None /\
  (exists delta, trace (tick (fun _ => true) (fun _ v => Some v)
                          (mkTick (Some page_download) None 0) ioc_ready) =
                 trace ioc_ready ++ delta /\ forallb status_event delta = true) /\
  pv_data (tick (fun _ => true) (fun _ v => Some v) (mkTick (Some page_download) None 0) ioc_ready) =
  pv_data ioc_ready.
Proof.
  split; [reflexivity|].
  apply (update_hook_download_failed _ _ (mkTick (Some page_download) None 0)). reflexivity.
Defined.

Lemma update_metadata_values w md now s s1 :
  update_metadata w md now s = (s1, Ret tt) ->
  forall key ch n, In (key, (ch, n)) metadata_to_property ->
  default "" (meta_pv s1 !! ch) = String.substring 0 n (default "unknown" (md !! key)).
Proof.
  intros H key ch n Hin.
  destruct (update_metadata_from_spec w metadata_to_property md now s s1
              metadata_channels_nodup H) as [d [_ [_ Hk]]].
  destruct (Hk key ch n Hin) as [E _]. rewrite E.
  destruct (String.eqb_spec (default "" (meta_pv s !! ch))
              (String.substring 0 n (default "unknown" (md !! key)))) as [Eq|Eq];
    [exact Eq|reflexivity].
Qed.

Lemma update_metadata_from_stable w props md now s :
  (forall key ch n, In (key, (ch, n)) props ->
     default "" (meta_pv s !! ch) = String.substring 0 n (default "unknown" (md !! key))) ->
  update_metadata_from w props md now s = (s, Ret tt).
Proof.
  induction props as [|[key [ch n]] props IH]; intros Hv; [reflexivity|].
  cbn [update_metadata_from]. rewrite bind_run.
  unfold write_metadata_if_changed. rewrite bind_run. cbv [getM]. cbv beta iota zeta.
  rewrite (Hv key ch n (or_introl eq_refl)), String.eqb_refl. cbv [retM]. cbv beta iota.
  apply IH. intros key' ch' n' Hi. apply Hv. right. exact Hi.
Qed.

(** After [_update_metadata] completes, each metadata channel reads the
    header's value for its key cut to the channel's [max_length] (40),
    or ['unknown'] when the key is missing; an unwritten channel reads
    as the empty string. *)
Theorem update_metadata_channel_value (write_ok : event -> bool) (md : gmap string string)
    (now : Z) (s s1 : ioc) (key ch : string) (n : nat) :
  In (key, (ch, n)) metadata_to_property ->
  update_metadata write_ok md now s = (s1, Ret tt) ->
  default "" (meta_pv s1 !! ch) = String.substring 0 n (default "unknown" (md !! key)).
Proof. intros Hin H. exact (update_metadata_values _ _ _ _ _ H key ch n Hin). Qed.

Lemma update_metadata_channel_value_witness :
  In ("Model Number", ("model_number", 40%nat)) metadata_to_property /\
  update_metadata (fun _ => true) md_example 7 ioc0 =
    (fst (update_metadata (fun _ => true) md_example 7 ioc0), Ret tt) /\
  default "" (meta_pv (fst (update_metadata (fun _ => true) md_example 7 ioc0)) !! "model_number") =
  String.substring 0 40 (default "unknown" (md_example !! "Model Number")).
Proof.
  assert (Hin : In ("Model Number", ("model_number", 40%nat)) metadata_to_property)
    by (left; reflexivity).
  assert (H : update_metadata (fun _ => true) md_example 7 ioc0 =
    (fst (update_metadata (fun _ => true) md_example 7 ioc0), Ret tt))
    by (vm_compute; reflexivity).
  split; [exact Hin|]. split; [exact H|].
  exact (update_metadata_channel_value _ _ _ _ _ _ _ _ Hin H).
Defined.

(** [_update_metadata] is idempotent: once a pass with a header
    dictionary has completed, another pass with the same dictionary
    writes nothing and leaves the state unchanged. *)
Theorem update_metadata_idempotent (write_ok : event -> bool) (md : gmap string string)
    (now now' : Z) (s s1 : ioc) :
  update_metadata write_ok md now s = (s1, Ret tt) ->
  update_metadata write_ok md now' s1 = (s1, Ret tt).
Proof.
  intros H. apply update_metadata_from_stable.
  exact (update_metadata_values _ _ _ _ _ H).
Qed.

Lemma update_metadata_idempotent_witness :
  update_metadata (fun _ => true) md_example 7 ioc0 =
    (fst (update_metadata (fun _ => true) md_example 7 ioc0), Ret tt) /\
  update_metadata (fun _ => true) md_example 8 (fst (update_metadata (fun _ => true) md_example 7 ioc0)) =
    (fst (update_metadata (fun _ => true) md_example 7 ioc0), Ret tt).
Proof.
  assert (H : update_metadata (fun _ => true) md_example 7 ioc0 =
    (fst (update_metadata (fun _ => true) md_example 7 ioc0), Ret tt))
    by (vm_compute; reflexivity).
  split; [exact H|]. exact (update_metadata_idempotent _ _ _ 8 _ _ H).
Defined.

Lemma insert_row_none (x : Z * row) (l : table) :
  insert_row x l = None -> In (fst x) (map fst l).
Proof.
  induction l as [|y l IH]; simpl; [discriminate|].
  destruct (fst x <? fst y); [discriminate|].
  destruct (fst x =? fst y) eqn:E.
  - intros _. left. symmetry. apply Z.eqb_eq, E.
  - destruct (insert_row x l); simpl; [discriminate|]. intros H. right. apply IH, H.
Qed.

Lemma strongly_sorted_nodup (l : table) :
  StronglySorted ts_lt l -> List.NoDup (map fst l).
Proof.
  induction 1 as [|x l Hs IH Hf]; simpl; constructor; [|exact IH].
  intros Hin. apply in_map_iff in Hin as [y [Ey Hy]].
  rewrite List.Forall_forall in Hf. specialize (Hf y Hy). unfold ts_lt in Hf. lia.
Qed.

Lemma sorted_rows_none_iff (l : table) :
  sorted_rows l = None <-> ~ List.NoDup (map fst l).
Proof.
  split.
  - intros H Hnd. induction l as [|x l IH]; [discriminate|].
    simpl in Hnd. apply List.NoDup_cons_iff in Hnd as [Hx Hnd].
    simpl in H. destruct (sorted_rows l) as [m|] eqn:Em; [|exact (IH eq_refl Hnd)].
    apply insert_row_none in H. apply Hx.
    destruct (sorted_rows_spec l m Em) as [_ Hp].
    apply (Permutation_in _ (Permutation_map fst (Permutation_sym Hp))), H.
  - intros Hnd. destruct (sorted_rows l) as [m|] eqn:Em; [|reflexivity].
    exfalso. apply Hnd. destruct (sorted_rows_spec l m Em) as [Hs Hp].
    apply (Permutation_NoDup (Permutation_map fst (Permutation_sym Hp))).
    apply strongly_sorted_nodup, Hs.
Qed.

(** [sorted(df.iterrows())] fails ([ValueError] from comparing two rows)
    exactly when two of the rows share a timestamp; otherwise it
    succeeds. *)
Theorem sorted_rows_duplicate_timestamps (l : table) :
  sorted_rows l = None <-> ~ List.NoDup (map fst l).
Proof. apply sorted_rows_none_iff. Qed.

Lemma update_metadata_meta_writes w md now : appends is_meta_write (update_metadata w md now).
Proof.
  unfold update_metadata.
  induction metadata_to_property as [|[key [ch n]] props IH]; simpl; [appends_tac|].
  apply appends_bind; [|intros _; exact IH].
  unfold write_metadata_if_changed. appends_tac.
Qed.

(** A download-and-update pass whose new rows contain two rows with the
    same timestamp fails after the metadata update: it publishes no row
    and leaves the watermark and the synchronised count unchanged, so
    every later pass over the same table fails the same way. *)
Theorem download_and_update_duplicate_timestamps (write_ok : event -> bool)
    (type_cast : ptype -> value -> option value) (md : gmap string string) (df : table)
    (now : Z) (s : ioc) :
  ~ List.NoDup (map fst (find_new_rows (last_timestamp s) (sync_records s) df)) ->
  snd (download_and_update write_ok type_cast (Some (md, df)) now s) = Raise /\
  last_timestamp (fst (download_and_update write_ok type_cast (Some (md, df)) now s)) =
    last_timestamp s /\
  sync_records (fst (download_and_update write_ok type_cast (Some (md, df)) now s)) =
    sync_records s /\
  exists delta,
    trace (fst (download_and_update write_ok type_cast (Some (md, df)) now s)) = trace s ++ delta /\
    forallb is_meta_write delta = true.
Proof.
  intros Hdup. apply sorted_rows_none_iff in Hdup.
  unfold download_and_update. rewrite bind_run. cbn [lift_opt]. cbv [retM]. cbv beta iota.
  rewrite bind_run.
  destruct (update_metadata_meta_writes write_ok md now s) as [d [Ed Fd]].
  pose proof (update_metadata_preserves (fun s => (last_timestamp s, sync_records s))
                write_ok md now (fun _ _ => eq_refl) (fun _ _ _ _ => eq_refl) s) as Hp.
  destruct (update_metadata write_ok md now s) as [s1 [[]|]]; simpl in Ed, Hp;
    injection Hp as E1 E2.
  - rewrite bind_run. cbv [getM]. cbv beta iota. rewrite bind_run.
    rewrite E1, E2, Hdup. cbn [lift_opt]. cbv [raise]. cbv beta iota.
    simpl. split; [reflexivity|]. split; [exact E1|]. split; [exact E2|]. exists d. auto.
  - simpl. split; [reflexivity|]. split; [exact E1|]. split; [exact E2|]. exists d. auto.
Qed.

Lemma download_and_update_duplicate_timestamps_witness :
  ~ List.NoDup (map fst (find_new_rows (last_timestamp ioc_dup) (sync_records ioc_dup) dup_table)) /\
  snd (download_and_update (fun _ => true) (fun _ v => Some v) (Some (∅, dup_table)) 0 ioc_dup) = Raise.
Proof.
  assert (H : ~ List.NoDup (map fst (find_new_rows (last_timestamp ioc_dup) (sync_records ioc_dup) dup_table))).
  { vm_compute. intros Hn. inversion Hn as [|x l Hx Hl]. apply Hx. left. reflexivity. }
  split; [exact H|].
  exact (proj1 (download_and_update_duplicate_timestamps _ _ ∅ dup_table 0 ioc_dup H)).
Defined.


(** * The simulated device *)

Lemma main_pages_new_data (n : nat) :
  main_pages n st_new_data = repeat (STATE_TO_HTML st_new_data) n.
Proof. induction n as [|n IH]; simpl; [reflexivity|]. rewrite IH. reflexivity. Qed.

(** The simulator's rebuild cycle: a [POST /] with [BuildFile=Build],
    from any state, answers with the rebuilding page; the following
    [GET /] requests then serve the rebuilding page once, the
    ready-to-download page once, and the new-data page from then on. *)
Theorem sim_rebuild_cycle (st : sim_state) (post_data : list (string * string)) (n : nat) :
  assoc "BuildFile" post_data = Some "Build" ->
  exists st', sim_request POST "/" post_data st = Some ("html/rebuilding.html", st') /\
  main_pages (2 + n) st' =
    "html/rebuilding.html" :: "html/ready-to-download.html" :: repeat "html/new_data.html" n.
Proof.
  intros Hb. exists st_rebuilding. split.
  - simpl. unfold handle_rebuild. rewrite Hb. reflexivity.
  - cbn [Nat.add main_pages transition STATE_TO_HTML]. rewrite main_pages_new_data. reflexivity.
Qed.

Lemma sim_rebuild_cycle_witness :
  assoc "BuildFile" REBUILD_POST_DATA = Some "Build" /\
  exists st', sim_request POST "/" REBUILD_POST_DATA st_download = Some ("html/rebuilding.html", st') /\
  main_pages (2 + 1) st' =
    "html/rebuilding.html" :: "html/ready-to-download.html" :: repeat "html/new_data.html" 1.
Proof.
  split; [reflexivity|]. apply sim_rebuild_cycle. reflexivity.
Defined.

(** Without a rebuild request the simulator settles: from any state,
    every [GET /] from the fourth on serves the new-data page. *)
Theorem sim_settles_new_data (st : sim_state) (n : nat) :
  skipn 3 (main_pages (3 + n) st) = repeat "html/new_data.html" n.
Proof.
  destruct st; cbn [Nat.add main_pages transition skipn];
    rewrite main_pages_new_data; reflexivity.
Qed.

(** The IOC's own traffic never moves the simulator out of its initial
    state: from [new_data], whatever sequence of status checks, data
    downloads and rebuild requests the IOC sends, every status check is
    answered with the new-data page, every download with the sample
    file and every rebuild request with aiohttp's error answer, and the
    state stays [new_data].  Against the simulator, the IOC never gets
    the rebuilding or the ready-to-download page. *)
Theorem sim_ioc_traffic (rs : list ioc_request) :
  sim_serve rs st_new_data =
  (map (fun r => match r with
                 | RCheckState => Some (STATE_TO_HTML st_new_data)
                 | RGetDataFile => Some SAMPLE_DATA_FILE
                 | RRequestRebuild => None
                 end) rs,
   st_new_data).
Proof.
  induction rs as [|r rs IH]; [reflexivity|].
  destruct r; cbn [sim_serve ioc_http sim_request]; cbn; rewrite IH; reflexivity.
Qed.
